(** * tsa-plugin-az: a shallow embedding of the Azure metrics plugin

    The plugin (index.ts) queries the [az] command line tool for the
    utilisation time series of a set of resources.  This development embeds
    the pure helpers ([getValidInterval], [mapMetricName], [transformValue],
    [mapTimeSeriesDataPoint], [getTimeSeries], the filter of [getVMIds]) and
    the control flow of [execute] as Rocq functions, and proves the
    properties the specification states about them.

    Conventions of the embedding:
    - a JavaScript [number] is a binary64 [float], with the arithmetic of
      the primitive floats; the exact integer arithmetic the quantizer is
      compared with is kept apart, in the module [Exact];
    - an optional, nullable JSON field is a [JSValue];
    - a JS object used as a dictionary keyed by resource name is a
      [gmap string _];
    - [process.exit] and thrown exceptions are explicit outcomes;
    - the order in which the child processes complete is a schedule, an
      argument of the run. *)

From Stdlib Require Import ZArith PArith Bool Floats Ascii String List Permutation Lia.
From stdpp Require Import base option list strings gmap.
Import ListNotations.

Local Open Scope string_scope.
Local Open Scope list_scope.
Local Open Scope Z_scope.

(** ** JavaScript values that occur in the payloads *)

(** A field of a data point: absent ([undefined]), JSON [null] or a number. *)
Inductive JSValue : Type :=
| undefined
| null
| num (x : float).

(** [a ?? b] *)
Definition nullish (a b : JSValue) : JSValue :=
  match a with
  | undefined | null => b
  | num _ => a
  end.

Infix "??" := nullish (at level 45, right associativity).

(** [ToNumber] of the language, as the division operator applies it. *)
Definition ToNumber (v : JSValue) : float :=
  match v with
  | undefined => nan
  | null => 0%float
  | num x => x
  end.

(** [new Date(s)]: the date is kept as the string it was built from. *)
Inductive JSDate : Type := NewDate (timeStamp : string).

(** ** The data model of index.ts *)

Inductive MetricType : Type := cpu | ram | memory_percent | disk.

Record IAZResource : Type := { id : string; name : string }.

Record IMetricDataPoint : Type := {
  average : JSValue;
  maximum : JSValue;
  minimum : JSValue;
  timeStamp : string
}.

(** ** Binary64 numbers *)

(** The binary64 number of an integer: the library's rounding of the integer
    to 53 bits (to nearest, ties to even), as [parseFloat] and the literals
    of the language give it.  Integers of magnitude below 2^53 are not
    changed by it. *)
Definition SF_of_Z (z : Z) : spec_float := binary_normalize prec emax z 0 false.

Definition number_of_Z (z : Z) : float := SF2Prim (SF_of_Z z).

(** ** getValidInterval *)

(** [timestring(display, 'ms', {})] on the fragment the catalog uses: a
    decimal count followed by one unit among minutes, hours and days (24
    hours a day, the library's default).  The library multiplies the count
    by the seconds of the unit and divides by the seconds of the target unit,
    0.001, all in binary64.  It throws on an unknown unit: [None]. *)
Definition digit_of (c : ascii) : option Z :=
  let n := Z.of_nat (nat_of_ascii c) in
  if (48 <=? n) && (n <=? 57) then Some (n - 48) else None.

Fixpoint split_count (s : string) (acc : Z) : Z * string :=
  match s with
  | EmptyString => (acc, EmptyString)
  | String c rest =>
      match digit_of c with
      | Some d => split_count rest (10 * acc + d)
      | None => (acc, s)
      end
  end.

Definition unit_seconds (u : string) : option Z :=
  if String.eqb u "m" then Some 60
  else if String.eqb u "h" then Some 3600
  else if String.eqb u "d" then Some 86400
  else None.

#[warnings="-inexact-float"]
Definition timestring_ms (display : string) : option float :=
  let '(count, u) := split_count display 0 in
  match unit_seconds u with
  | Some secs => Some (number_of_Z count * number_of_Z secs / 0.001)%float
  | None => None
  end.

Record Interval : Type := { display : string; ms : float }.

Definition interval_displays : list string :=
  ["1m"; "5m"; "15m"; "30m"; "1h"; "6h"; "12h"; "1d"].

(** [[...].map((display) => ({ display, ms: timestring(display, 'ms', {}) }))] *)
Definition validIntervals : list Interval :=
  omap (fun d => match timestring_ms d with
                 | Some m => Some {| display := d; ms := m |}
                 | None => None
                 end) interval_displays.

(** The callback of the [reduce]:
    [Math.abs(v.ms - stepMS) < Math.abs(best.ms - stepMS) ? v : best],
    a subtraction, an absolute value and a comparison of binary64 numbers. *)
Definition closer (stepMS : float) (best v : Interval) : Interval :=
  if (abs (ms v - stepMS) <? abs (ms best - stepMS))%float then v else best.

(** [validIntervals.reduce(closer, validIntervals[0])]: the reduction visits
    every entry, the first one included, starting from the first one.  On an
    empty array [validIntervals[0]] is [undefined] and reading [.display]
    throws: [None]. *)
Definition closestMatch (intervals : list Interval) (stepMS : float) : option Interval :=
  match intervals with
  | [] => None
  | first :: _ => Some (fold_left (closer stepMS) intervals first)
  end.

Definition getValidInterval (stepMS : float) : option string :=
  display <$> closestMatch validIntervals stepMS.

(** ** The quantizer in exact arithmetic *)

(** The catalog with its durations as integers of milliseconds, and the
    reduction of the source on integers, where the subtraction and the
    absolute value are exact.  The source is compared with it: the two agree
    on the integer steps on which binary64 does not round. *)
Module Exact.

Record Interval : Type := { display : string; ms : Z }.

Definition validIntervals : list Interval :=
  [ {| display := "1m"; ms := 60000 |}; {| display := "5m"; ms := 300000 |};
    {| display := "15m"; ms := 900000 |}; {| display := "30m"; ms := 1800000 |};
    {| display := "1h"; ms := 3600000 |}; {| display := "6h"; ms := 21600000 |};
    {| display := "12h"; ms := 43200000 |}; {| display := "1d"; ms := 86400000 |} ].

Definition closer (stepMS : Z) (best v : Interval) : Interval :=
  if Z.abs (ms v - stepMS) <? Z.abs (ms best - stepMS) then v else best.

Definition closestMatch (intervals : list Interval) (stepMS : Z) : option Interval :=
  match intervals with
  | [] => None
  | first :: _ => Some (fold_left (closer stepMS) intervals first)
  end.

Definition getValidInterval (stepMS : Z) : option string :=
  display <$> closestMatch validIntervals stepMS.

End Exact.

(** An entry of the exact catalog as an entry of the source's. *)
Definition inject (e : Exact.Interval) : Interval :=
  {| display := Exact.display e; ms := number_of_Z (Exact.ms e) |}.

(** The integer steps on which none of the eight subtractions rounds. *)
Definition exact_step (stepMS : Z) : Prop := Z.abs stepMS < 2 ^ 53 - 86400000.

(** ** Outcomes: values, [process.exit(1)], thrown errors *)

Inductive JSError : Type := TypeError | SyntaxError.

(** Every way in which the plugin ends the process; all of them are
    [process.exit(1)]. *)
Inductive ExitCause : Type :=
| CommandFailed (command : string)
    (* execOrFail, execOrFailAsync: the command exited with a non-zero code *)
| UnsupportedMetric (metricType : MetricType) (type : string)
    (* mapMetricName *)
| Caught (e : JSError).
    (* catch (error) { console.error(error); process.exit(1); } of execute *)

Inductive Result (A : Type) : Type :=
| Ok (a : A)
| Exit (c : ExitCause)
| Throw (e : JSError).

Arguments Ok {A} a.
Arguments Exit {A} c.
Arguments Throw {A} e.

(** Sequencing: an exit or a thrown error skips what follows. *)
#[global] Instance Result_bind : MBind Result := fun A B k r =>
  match r with
  | Ok a => k a
  | Exit c => Exit c
  | Throw e => Throw e
  end.

#[global] Instance Result_ret : MRet Result := fun A a => Ok a.

(** ** The environment of the process *)

(** What a command gave: its exit code, and its standard output read by
    [JSON.parse] at the type the caller casts it to ([None]: the text is
    not JSON, [JSON.parse] throws a SyntaxError). *)
Record ExecOutput (T : Type) : Type := { code : Z; stdout : option T }.

Arguments code {T} _.
Arguments stdout {T} _.

(** An element of the output of [az resource list]; [others] stands for the
    properties that the final [map] of [getVMIds] drops. *)
Record AZResourceJson : Type := { res_id : string; res_name : string; others : string }.

(** The output of [az monitor metrics list], as far as [getTimeSeries] reads
    it: [data.value[0].timeseries[0].data].  A [timeseries] property may be
    missing; [data] is an array of points, as the cast of the source says. *)
Record TimeSeriesElement : Type := { data : list IMetricDataPoint }.
Record MetricValue : Type := { timeseries : option (list TimeSeriesElement) }.
Record MetricsPayload : Type := { value : list MetricValue }.

(** [exec] of shelljs on the two kinds of command, and [new RegExp(pattern)]
    of the language: [None] when the pattern is not a regular expression (the
    constructor throws a SyntaxError), else the [test] method of the
    expression, built without flags. *)
Record Env : Type := {
  az_resource_list : string -> ExecOutput (list AZResourceJson);
  az_monitor_metrics_list : string -> ExecOutput MetricsPayload;
  RegExp : string -> option (string -> bool)
}.

(** [execOrFail] and [execOrFailAsync] followed by the [JSON.parse] of [az]
    and [azAsync]. *)
Definition execOrFail {T : Type} (command : string) (out : ExecOutput T) : Result (option T) :=
  if code out =? 0 then Ok (stdout out) else Exit (CommandFailed command).

Definition az {T : Type} (command : string) (out : ExecOutput T) : Result T :=
  parsed ← execOrFail command out;
  match parsed with
  | Some v => Ok v
  | None => Throw SyntaxError
  end.

(** ** Options and arguments *)

Record IAZPluginOptions : Type := {
  resource_group : option string;
  resource_type : option string;
  metric : option MetricType;
  filter : option string
}.

(** [start] and [end] are kept as [toISOString] prints them. *)
Record ITSAPluginArgs : Type := { start : string; end_ : string; step : float }.

Definition defaultResourceType : string := "Microsoft.Compute/virtualMachines".

(** A string is truthy when it is not empty. *)
Definition truthy_string (s : option string) : bool :=
  match s with
  | Some (String _ _) => true
  | _ => false
  end.

(** ** mapMetricName *)

Definition MetricType_name (m : MetricType) : string :=
  match m with
  | cpu => "cpu"
  | ram => "ram"
  | memory_percent => "memory_percent"
  | disk => "disk"
  end.

Definition MetricType_eqb (a b : MetricType) : bool :=
  String.eqb (MetricType_name a) (MetricType_name b).

Definition metricNamesForResourceType : list (string * list (MetricType * string)) :=
  [ ("Microsoft.Compute/virtualMachines",
      [ (cpu, "Percentage CPU"); (ram, "Available Memory Bytes") ]);
    ("Microsoft.DBforMySQL/flexibleServers",
      [ (cpu, "cpu_percent"); (memory_percent, "memory_percent"); (disk, "storage_percent") ]) ].

(** Reading a property of an object literal: the first entry under the key. *)
Fixpoint get_property {K V : Type} (eqb : K -> K -> bool) (obj : list (K * V)) (key : K) : option V :=
  match obj with
  | [] => None
  | (k, v) :: rest => if eqb k key then Some v else get_property eqb rest key
  end.

(** The properties every object literal inherits from [Object.prototype].
    Under such a key [metricNamesForResourceType[type]] is a function or the
    prototype itself, which is not nullish and has none of the four metric
    names as a property: the look-up of the metric in it gives [undefined],
    as in [{}]. *)
Definition object_prototype_keys : list string :=
  [ "constructor"; "__proto__"; "hasOwnProperty"; "isPrototypeOf";
    "propertyIsEnumerable"; "toLocaleString"; "toString"; "valueOf";
    "__defineGetter__"; "__defineSetter__"; "__lookupGetter__"; "__lookupSetter__" ].

Definition metricNames_of_type (type : string) : option (list (MetricType * string)) :=
  match get_property String.eqb metricNamesForResourceType type with
  | Some map => Some map
  | None =>
      if existsb (String.eqb type) object_prototype_keys then Some [] else None
  end.

Definition mapMetricName (options : IAZPluginOptions) (metricType : MetricType) : Result string :=
  let type := default defaultResourceType (resource_type options) in
  let map := default [] (metricNames_of_type type) in
  match get_property MetricType_eqb map metricType with
  | Some (String c s) => Ok (String c s)
  | _ => Exit (UnsupportedMetric metricType type)
  end.

(** ** getVMIds *)

Definition resource_list_command (options : IAZPluginOptions) : string :=
  let group :=
    if truthy_string (resource_group options)
    then "--resource-group " +:+ default EmptyString (resource_group options)
    else EmptyString in
  let type := "--resource-type " +:+ default defaultResourceType (resource_type options) in
  "az resource list " +:+ type +:+ " " +:+ group.

(** The callback of the [filter] of [getVMIds]; the expression is built anew
    for every element, without flags. *)
Definition matches_filter (env : Env) (options : IAZPluginOptions) (x : AZResourceJson) : Result bool :=
  if negb (truthy_string (filter options)) then Ok true
  else
    match RegExp env (default EmptyString (filter options)) with
    | Some test => Ok (test (res_name x))
    | None => Throw SyntaxError
    end.

(** [Array.prototype.filter] with a callback that may throw: the elements are
    visited from left to right and the first error ends the visit. *)
Fixpoint array_filter {A : Type} (p : A -> Result bool) (l : list A) : Result (list A) :=
  match l with
  | [] => Ok []
  | x :: rest =>
      keep ← p x;
      kept ← array_filter p rest;
      Ok (if keep : bool then x :: kept else kept)
  end.

(** [({ id, name }) => ({ id, name })] *)
Definition id_and_name (x : AZResourceJson) : IAZResource :=
  {| id := res_id x; name := res_name x |}.

Definition getVMIds (env : Env) (options : IAZPluginOptions) : Result (list IAZResource) :=
  let command := resource_list_command options in
  listed ← az command (az_resource_list env command);
  kept ← array_filter (matches_filter env options) listed;
  Ok (map id_and_name kept).

(** ** getTimeSeries *)

(** The body of [getTimeSeries] after the command returned:
    [const { timeseries } = data.value[0] || {};
     const ts = timeseries.length > 0 ? timeseries[0].data : null;]
    [None] is [null]; reading [length] of an [undefined] [timeseries] throws
    a TypeError. *)
Definition firstTimeSeries (payload : MetricsPayload) : Result (option (list IMetricDataPoint)) :=
  let first := match value payload with
               | v :: _ => v
               | [] => {| timeseries := None |}
               end in
  match timeseries first with
  | None => Throw TypeError
  | Some [] => Ok None
  | Some (ts0 :: _) => Ok (Some (data ts0))
  end.

Definition monitor_metrics_command (id options : string) : string :=
  let resource := "--resource " +:+ id in
  "az monitor metrics list " +:+ resource +:+ " " +:+ options.

Definition getTimeSeries (env : Env) (id options : string) : Result (option (list IMetricDataPoint)) :=
  let command := monitor_metrics_command id options in
  payload ← az command (az_monitor_metrics_list env command);
  firstTimeSeries payload.

(** ** transformValue and mapTimeSeriesDataPoint *)

Definition transformValue (v : JSValue) (metric : MetricType) : JSValue :=
  match metric with
  | ram => num (ToNumber v / 1000000000)%float
  | _ => v
  end.

(** A point of the output: [[new Date(point.timeStamp), value]]. *)
Definition LabeledPoint : Type := JSDate * JSValue.

(** The result is a pair or [null] ([None]). *)
Definition mapTimeSeriesDataPoint (point : IMetricDataPoint) (metricType : MetricType) : option LabeledPoint :=
  let v := average point ?? minimum point ?? maximum point in
  match v with
  | num _ => Some (NewDate (timeStamp point), transformValue v metricType)
  | undefined | null => None
  end.

(** [!!x] on a pair or [null]. *)
Definition truthy {A : Type} (x : option A) : bool :=
  match x with
  | Some _ => true
  | None => false
  end.

(** [rawSeries.map((x) => mapTimeSeriesDataPoint(x, metricType)).filter((x) => !!x)].
    The elements keep the type of the results of [mapTimeSeriesDataPoint]
    (the source casts the array [as any]). *)
Definition mapSeries (rawSeries : list IMetricDataPoint) (metricType : MetricType)
  : list (option LabeledPoint) :=
  List.filter truthy (map (fun x => mapTimeSeriesDataPoint x metricType) rawSeries).

(** [ILabeledTimeSeriesData]: a series under every label. *)
Abbreviation LabeledData := (gmap string (list (option LabeledPoint))).

(** ** execute *)

(** What [logProgress] writes: the two counts of
    [Fetching data… (completed / total queries completed)]. *)
Record Progress : Type := { completed : nat; total : nat }.

(** The variables the completion handlers share.  [data] is an object keyed
    by resource name: a [gmap], in which an assignment [data[label] = series]
    replaces what the label held. *)
Record RunState : Type := {
  labeled : LabeledData;   (* data *)
  completedQueries : nat;
  written : list Progress                      (* what process.stdout received *)
}.

Definition logProgress (totalQueries : nat) (st : RunState) : RunState :=
  {| labeled := labeled st;
     completedQueries := completedQueries st;
     written := written st ++ [ {| completed := completedQueries st; total := totalQueries |} ] |}.

(** The rest of the per-resource function once [getTimeSeries] has returned
    [rawSeries]; it runs to its end without another [await]. *)
Definition settled (metricType : MetricType) (totalQueries : nat) (vm : IAZResource)
    (rawSeries : option (list IMetricDataPoint)) (st : RunState) : RunState :=
  let st1 :=
    match rawSeries with
    | Some raw =>
        {| labeled := <[ name vm := mapSeries raw metricType ]> (labeled st);
           completedQueries := completedQueries st;
           written := written st |}
    | None => st
    end in
  let st2 :=
    {| labeled := labeled st1;
       completedQueries := (completedQueries st1 + 1)%nat;
       written := written st1 |} in
  logProgress totalQueries st2.

(** The order in which the child processes complete is not fixed by the
    program.  A schedule picks, at every completion, one of the queries still
    pending (its index modulo their number); when the schedule is used up the
    rest complete in the order of the listing. *)
Fixpoint completion_order {A : Type} (sched : list nat) (pending : list A) : list A :=
  match sched with
  | [] => pending
  | i :: sched' =>
      let j := (i mod length pending)%nat in
      match pending !! j with
      | Some x => x :: completion_order sched' (take j pending ++ drop (S j) pending)
      | None => pending
      end
  end.

(** The completions in their order.  A command that exits with a non-zero
    code ends the process in [execOrFailAsync]; a thrown error rejects the
    promise of the resource, hence [Promise.all], and the [catch] of
    [execute] ends the process. *)
Fixpoint settle (env : Env) (metricType : MetricType) (timeSeriesFlags : string)
    (totalQueries : nat) (order : list IAZResource) (st : RunState)
  : Result LabeledData * RunState :=
  match order with
  | [] => (Ok (labeled st), st)
  | vm :: rest =>
      match getTimeSeries env (id vm) timeSeriesFlags with
      | Ok rawSeries =>
          settle env metricType timeSeriesFlags totalQueries rest
            (settled metricType totalQueries vm rawSeries st)
      | Exit c => (Exit c, st)
      | Throw e => (Exit (Caught e), st)
      end
  end.

(** What a run leaves behind: how it ended ([Ok data]: [{ data }] was
    returned), the progress lines written, the commands started. *)
Record Run : Type := {
  outcome : Result LabeledData;
  progress : list Progress;
  invocations : list string
}.

(** The double quote character. *)
Definition quote : string := String (ascii_of_nat 34) EmptyString.

Definition timeSeriesFlags_of (args : ITSAPluginArgs) (metricName intervalValue : string) : string :=
  let startTime := "--start-time " +:+ start args in
  let endTime := "--end-time " +:+ end_ args in
  let interval := "--interval " +:+ intervalValue in
  let metrics := "--metric " +:+ quote +:+ metricName +:+ quote in
  metrics +:+ " " +:+ startTime +:+ " " +:+ endTime +:+ " " +:+ interval.

Definition initialState : RunState :=
  {| labeled := ∅; completedQueries := 0%nat; written := [] |}.

Definition execute (env : Env) (args : ITSAPluginArgs) (options : IAZPluginOptions)
    (sched : list nat) : Run :=
  match getValidInterval (step args) with
  | None => {| outcome := Throw TypeError; progress := []; invocations := [] |}
  | Some intervalValue =>
      let metricType := default cpu (metric options) in
      match mapMetricName options metricType with
      | Exit c => {| outcome := Exit c; progress := []; invocations := [] |}
      | Throw e => {| outcome := Throw e; progress := []; invocations := [] |}
      | Ok metricName =>
          let timeSeriesFlags := timeSeriesFlags_of args metricName intervalValue in
          match getVMIds env options with
          | Exit c =>
              {| outcome := Exit c; progress := [];
                 invocations := [resource_list_command options] |}
          | Throw e =>
              {| outcome := Exit (Caught e); progress := [];
                 invocations := [resource_list_command options] |}
          | Ok vmIds =>
              let totalQueries := length vmIds in
              let '(out, st) :=
                settle env metricType timeSeriesFlags totalQueries
                  (completion_order sched vmIds)
                  (logProgress totalQueries initialState) in
              {| outcome := out; progress := written st;
                 invocations :=
                   resource_list_command options
                   :: map (fun vm => monitor_metrics_command (id vm) timeSeriesFlags) vmIds |}
          end
      end
  end.

(** ** The legacy variant (src/index.ts) *)

Module Legacy.

Inductive MetricType : Type := cpu | ram.

Definition transformValue (v : JSValue) (metric : MetricType) : JSValue :=
  match metric with
  | ram => num (ToNumber v / 1000000000)%float
  | cpu => v
  end.

(** [x.average !== null] *)
Definition average_not_null (x : IMetricDataPoint) : bool :=
  match average x with
  | null => false
  | undefined | num _ => true
  end.

(** [rawSeries.filter((x) => x.average !== null)
      .map((x) => [new Date(x.timeStamp), transformValue(x.average, metricType)])] *)
Definition mapSeries (rawSeries : list IMetricDataPoint) (metricType : MetricType)
  : list LabeledPoint :=
  map (fun x => (NewDate (timeStamp x), transformValue (average x) metricType))
      (List.filter average_not_null rawSeries).

End Legacy.

(** ** Notions used by the statements *)

(** The distance the reduction compares, in exact arithmetic. *)
Definition distance (stepMS : Z) (e : Exact.Interval) : Z := Z.abs (Exact.ms e - stepMS).

(** [e], at index [i] of [l], is the first entry of [l] at the least distance
    from [stepMS]. *)
Definition first_nearest (stepMS : Z) (l : list Exact.Interval) (i : nat)
    (e : Exact.Interval) : Prop :=
  l !! i = Some e ∧
  (∀ j e', l !! j = Some e' → distance stepMS e <= distance stepMS e') ∧
  (∀ j e', (j < i)%nat → l !! j = Some e' → distance stepMS e < distance stepMS e').

(** The duration of the entry is between 0 and a day. *)
Definition in_a_day (e : Exact.Interval) : Prop := 0 <= Exact.ms e <= 86400000.

(** The canonical form of a positive integer below 2^53 as a binary64
    number: its bits moved up to fill the 53 bits of the mantissa. *)
Definition canonical (s : bool) (V : positive) : spec_float :=
  S754_finite s (Nat.iter (53 - Pos.to_nat (digits2_pos V)) xO V)
              (Zpos (digits2_pos V) - 53).

(** The two-level look-up of the configuration table: the provider name
    configured for a resource type and a metric, if any. *)
Definition configured (type : string) (metricType : MetricType) : option string :=
  names ← get_property String.eqb metricNamesForResourceType type;
  get_property MetricType_eqb names metricType.

(** A field holds a usable value: it is present and not [null]. *)
Definition usable (v : JSValue) : bool :=
  match v with
  | num _ => true
  | undefined | null => false
  end.

(** The value of a point: the average if usable, else the minimum if usable,
    else the maximum. *)
Definition reduced (point : IMetricDataPoint) : JSValue :=
  if usable (average point) then average point
  else if usable (minimum point) then minimum point
  else maximum point.

(** None of the three fields of the point is usable. *)
Definition all_missing (point : IMetricDataPoint) : bool :=
  negb (usable (average point)) && negb (usable (minimum point))
  && negb (usable (maximum point)).

(** The progress lines [(0, N)], [(1, N)], ..., [(k, N)]. *)
Definition progress_upto (N k : nat) : list Progress :=
  map (fun c => {| completed := c; total := N |}) (seq 0 (S k)).

(** The fetch of the resource returned, with a series or [null]. *)
Definition fetched (env : Env) (timeSeriesFlags : string) (vm : IAZResource) : Prop :=
  ∃ rawSeries, getTimeSeries env (id vm) timeSeriesFlags = Ok rawSeries.

(** ** Sample environments *)

(** [needle] occurs in [s]. *)
Definition occurs_in (needle s : string) : bool :=
  match index 0 needle s with
  | Some _ => true
  | None => false
  end.

(** A stand-in for [new RegExp] that knows the patterns made of a caret and
    a literal: the name has to start with the literal. *)
Definition RegExp_caret (pattern : string) : option (string → bool) :=
  match pattern with
  | String "^"%char literal => Some (String.prefix literal)
  | _ => None
  end.

Definition sample_listing : list AZResourceJson :=
  [ {| res_id := "/vm/web-1"; res_name := "web-1"; others := "eastus" |};
    {| res_id := "/vm/web-2"; res_name := "web-2"; others := "eastus" |};
    {| res_id := "/vm/db-1"; res_name := "db-1"; others := "westus" |} ].

Definition sample_points : list IMetricDataPoint :=
  [ {| average := num 5; maximum := num 9; minimum := num 1; timeStamp := "t0" |};
    {| average := undefined; maximum := undefined; minimum := undefined; timeStamp := "t1" |};
    {| average := null; maximum := num 9; minimum := num 1; timeStamp := "t2" |} ].

Definition gap_points : list IMetricDataPoint :=
  [ {| average := null; maximum := null; minimum := null; timeStamp := "t0" |};
    {| average := undefined; maximum := undefined; minimum := undefined; timeStamp := "t1" |} ].

Definition payload_of (series : list TimeSeriesElement) : MetricsPayload :=
  {| value := [ {| timeseries := Some series |} ] |}.

(** web-1 has points, web-2 has no series, db-1 has a series without a
    usable value. *)
Definition sample_metrics (command : string) : ExecOutput MetricsPayload :=
  if occurs_in "--resource /vm/web-1 " command
  then {| code := 0; stdout := Some (payload_of [ {| data := sample_points |} ]) |}
  else if occurs_in "--resource /vm/web-2 " command
  then {| code := 0; stdout := Some (payload_of []) |}
  else {| code := 0; stdout := Some (payload_of [ {| data := gap_points |} ]) |}.

Definition sample_env : Env :=
  {| az_resource_list := fun _ => {| code := 0; stdout := Some sample_listing |};
     az_monitor_metrics_list := sample_metrics;
     RegExp := RegExp_caret |}.

(** The query of web-2 exits with code 3. *)
Definition failing_env : Env :=
  {| az_resource_list := fun _ => {| code := 0; stdout := Some sample_listing |};
     az_monitor_metrics_list := fun command =>
       if occurs_in "--resource /vm/web-2 " command
       then {| code := 3; stdout := None |}
       else sample_metrics command;
     RegExp := RegExp_caret |}.

(** The answer for db-1 has a [value] element without [timeseries]. *)
Definition shapeless_env : Env :=
  {| az_resource_list := fun _ => {| code := 0; stdout := Some sample_listing |};
     az_monitor_metrics_list := fun command =>
       if occurs_in "--resource /vm/db-1 " command
       then {| code := 0; stdout := Some {| value := [ {| timeseries := None |} ] |} |}
       else sample_metrics command;
     RegExp := RegExp_caret |}.

(** Two resources of one name; the first has a series without a usable
    value, the second has points. *)
Definition twin_env : Env :=
  {| az_resource_list := fun _ =>
       {| code := 0;
          stdout := Some [ {| res_id := "/vm/db-1"; res_name := "twin"; others := "a" |};
                           {| res_id := "/vm/web-1"; res_name := "twin"; others := "b" |} ] |};
     az_monitor_metrics_list := sample_metrics;
     RegExp := RegExp_caret |}.

Definition sample_args : ITSAPluginArgs :=
  {| start := "2024-01-01T00:00:00.000Z"; end_ := "2024-01-02T00:00:00.000Z";
     step := (1000 * 60 * 7)%float |}.

Definition sample_options : IAZPluginOptions :=
  {| resource_group := None; resource_type := None; metric := None; filter := None |}.

Definition web_options : IAZPluginOptions :=
  {| resource_group := Some "rg"; resource_type := None; metric := Some ram;
     filter := Some "^web" |}.

Definition sample_flags : string := timeSeriesFlags_of sample_args "Percentage CPU" "5m".

Definition sample_vmIds : list IAZResource := map id_and_name sample_listing.

(** ** Notions used by the further properties *)

(** The quantizer written with the midpoints of consecutive catalog entries
    as thresholds. *)
Definition threshold_entry (stepMS : Z) : Exact.Interval :=
  if stepMS <=? 180000 then {| Exact.display := "1m"; Exact.ms := 60000 |}
  else if stepMS <=? 600000 then {| Exact.display := "5m"; Exact.ms := 300000 |}
  else if stepMS <=? 1350000 then {| Exact.display := "15m"; Exact.ms := 900000 |}
  else if stepMS <=? 2700000 then {| Exact.display := "30m"; Exact.ms := 1800000 |}
  else if stepMS <=? 12600000 then {| Exact.display := "1h"; Exact.ms := 3600000 |}
  else if stepMS <=? 32400000 then {| Exact.display := "6h"; Exact.ms := 21600000 |}
  else if stepMS <=? 64800000 then {| Exact.display := "12h"; Exact.ms := 43200000 |}
  else {| Exact.display := "1d"; Exact.ms := 86400000 |}.

(** How the fetch of a resource ends the process, if it does: the exit of
    [execOrFailAsync], or the [catch] of [execute] on a thrown error. *)
Definition failure_cause (env : Env) (timeSeriesFlags : string) (vm : IAZResource)
  : option ExitCause :=
  match getTimeSeries env (id vm) timeSeriesFlags with
  | Ok _ => None
  | Exit c => Some c
  | Throw e => Some (Caught e)
  end.

(** The fetch of the resource returned a series (not [null]). *)
Definition has_series (env : Env) (timeSeriesFlags : string) (vm : IAZResource)
    (rawSeries : list IMetricDataPoint) : Prop :=
  getTimeSeries env (id vm) timeSeriesFlags = Ok (Some rawSeries).

(** The metrics of the legacy variant, as metrics of the current one. *)
Definition metric_of_legacy (m : Legacy.MetricType) : MetricType :=
  match m with
  | Legacy.cpu => cpu
  | Legacy.ram => ram
  end.

(** The average alone decides what becomes of the point: it is a number, or
    it is [null] and neither the minimum nor the maximum is usable. *)
Definition average_decides (point : IMetricDataPoint) : bool :=
  match average point with
  | num _ => true
  | null => negb (usable (minimum point)) && negb (usable (maximum point))
  | undefined => false
  end.

(** The number of points of a series without a usable field. *)
Definition count_missing (rawSeries : list IMetricDataPoint) : nat :=
  length (List.filter all_missing rawSeries).

(** A pattern that [RegExp_caret] refuses. *)
Definition broken_options : IAZPluginOptions :=
  {| resource_group := None; resource_type := None; metric := None;
     filter := Some "(web" |}.

(** The listing is empty. *)
Definition empty_env : Env :=
  {| az_resource_list := fun _ => {| code := 0; stdout := Some [] |};
     az_monitor_metrics_list := sample_metrics;
     RegExp := RegExp_caret |}.

(** The answer for web-2 is not JSON. *)
Definition garbled_env : Env :=
  {| az_resource_list := fun _ => {| code := 0; stdout := Some sample_listing |};
     az_monitor_metrics_list := fun command =>
       if occurs_in "--resource /vm/web-2 " command
       then {| code := 0; stdout := None |}
       else sample_metrics command;
     RegExp := RegExp_caret |}.

(** * Properties *)

(** ** Binary64 on integers below 2^53 *)

Lemma iter_pos_nat {A : Type} (f : A → A) p :
  ∀ x, SpecFloat.iter_pos f p x = Nat.iter (Pos.to_nat p) f x.
Proof.
  induction p as [p IH | p IH |]; intros x; cbn [SpecFloat.iter_pos].
  - rewrite !IH, Pos2Nat.inj_xI, <- Nat.iter_add, <- Nat.iter_succ_r. f_equal. lia.
  - rewrite !IH, Pos2Nat.inj_xO, <- Nat.iter_add. f_equal. lia.
  - reflexivity.
Qed.

Lemma Zdigits_shift k V :
  Zpos (digits2_pos (Nat.iter k xO V)) = Zpos (digits2_pos V) + Z.of_nat k.
Proof.
  induction k as [| k IH]; [cbn; lia |].
  rewrite Nat.iter_succ. cbn [digits2_pos]. rewrite Pos2Z.inj_succ, IH. lia.
Qed.

Lemma Zpos_shift k V : Zpos (Nat.iter k xO V) = Zpos V * 2 ^ Z.of_nat k.
Proof.
  induction k as [| k IH]; [cbn; lia |].
  rewrite Nat.iter_succ, Pos2Z.inj_xO, IH, Nat2Z.inj_succ, Z.pow_succ_r by lia. lia.
Qed.

Lemma shr_1_shift q :
  ∀ j V,
    Nat.iter q shr_1 {| shr_m := Zpos (Nat.iter (q + j) xO V); shr_r := false; shr_s := false |}
    = {| shr_m := Zpos (Nat.iter j xO V); shr_r := false; shr_s := false |}.
Proof.
  induction q as [| q IH]; intros j V; [reflexivity |].
  rewrite Nat.iter_succ_r. cbn [Nat.add]. rewrite Nat.iter_succ. cbn [shr_1 orb]. apply IH.
Qed.

Lemma shr_1_shift_all q m :
  Nat.iter q shr_1 {| shr_m := Zpos (Nat.iter q xO m); shr_r := false; shr_s := false |}
  = {| shr_m := Zpos m; shr_r := false; shr_s := false |}.
Proof. pose proof (shr_1_shift q 0%nat m) as H. rewrite Nat.add_0_r in H. exact H. Qed.

Lemma digits_size V : digits2_pos V = Pos.size V.
Proof. induction V; cbn; congruence. Qed.

Lemma digits_gt V : Zpos V < 2 ^ Zpos (digits2_pos V).
Proof.
  rewrite digits_size. pose proof (Pos.size_gt V) as Hgt.
  apply Pos2Z.pos_lt_pos in Hgt. rewrite Pos2Z.inj_pow in Hgt. exact Hgt.
Qed.

Lemma digits_le V : 2 ^ (Zpos (digits2_pos V) - 1) <= Zpos V.
Proof.
  rewrite digits_size. pose proof (Pos.size_le V) as Hle.
  apply Pos2Z.pos_le_pos in Hle. rewrite Pos2Z.inj_pow, (Pos2Z.inj_xO V) in Hle.
  change (Z.pos 2) with 2 in Hle.
  assert (H2 : 2 ^ Zpos (Pos.size V) = 2 * 2 ^ (Zpos (Pos.size V) - 1)).
  { rewrite <- Z.pow_succ_r by lia. f_equal. lia. }
  rewrite H2 in Hle. clear H2.
  generalize dependent (2 ^ (Z.pos (Pos.size V) - 1)). intros. lia.
Qed.

Lemma digits_bound V n : 0 <= n → (Zpos (digits2_pos V) <= n ↔ Zpos V < 2 ^ n).
Proof.
  intros Hn. pose proof (digits_gt V) as Hgt. pose proof (digits_le V) as Hle.
  split; intros H.
  - eapply Z.lt_le_trans; [exact Hgt |]. apply Z.pow_le_mono_r; [reflexivity | exact H].
  - destruct (Z_le_gt_dec (Zpos (digits2_pos V)) n) as [Hok | Hbig]; [exact Hok |].
    exfalso.
    assert (Hpow : 2 ^ n <= 2 ^ (Zpos (digits2_pos V) - 1))
      by (apply Z.pow_le_mono_r; [reflexivity | clear - Hbig; lia]).
    clear - Hpow Hle H.
    generalize dependent (2 ^ (Z.pos (digits2_pos V) - 1)).
    generalize dependent (2 ^ n). intros. lia.
Qed.

Lemma digits_lt A B :
  Zpos (digits2_pos A) < Zpos (digits2_pos B) → Zpos A < Zpos B.
Proof.
  intros Hlt. pose proof (digits_gt A) as HA. pose proof (digits_le B) as HB.
  assert (Hpow : 2 ^ Zpos (digits2_pos A) <= 2 ^ (Zpos (digits2_pos B) - 1))
    by (apply Z.pow_le_mono_r; [reflexivity | lia]).
  eapply Z.lt_le_trans; [exact HA |]. eapply Z.le_trans; [exact Hpow | exact HB].
Qed.

Lemma fexp_normal n : -1021 <= n → fexp prec emax n = n - 53.
Proof. intros Hn. unfold fexp, SpecFloat.emin, prec, emax. lia. Qed.

Lemma shr_zero mrs e : shr mrs e 0 = (mrs, e).
Proof. reflexivity. Qed.

(** A mantissa of exactly 53 bits is left as it is. *)
Lemma binary_round_aux_canonical s m e :
  Zpos (digits2_pos m) = 53 → -1074 <= e <= 971 →
  binary_round_aux prec emax s (Zpos m) e loc_Exact = S754_finite s m e.
Proof.
  intros Hd He. unfold binary_round_aux, shr_fexp. cbn [Zdigits2 shr_record_of_loc].
  rewrite Hd, fexp_normal by lia. replace (53 + e - 53 - e) with 0 by lia.
  rewrite shr_zero. cbn [shr_m loc_of_shr_record round_nearest_even Zdigits2 shr_record_of_loc].
  rewrite Hd, fexp_normal by lia. replace (53 + e - 53 - e) with 0 by lia.
  rewrite shr_zero. cbn [shr_m].
  replace (e <=? emax - prec) with true; [reflexivity |].
  symmetry. apply Z.leb_le. unfold emax, prec. lia.
Qed.

(** Zero bits below a mantissa of 53 bits are shifted out without rounding. *)
Lemma binary_round_aux_shift s m q e :
  Zpos (digits2_pos m) = 53 → -1074 <= e + Z.of_nat q <= 971 → -1074 <= e →
  binary_round_aux prec emax s (Zpos (Nat.iter q xO m)) e loc_Exact
  = S754_finite s m (e + Z.of_nat q).
Proof.
  intros Hd He He'. destruct q as [| q].
  { cbn [Nat.iter nat_rect]. rewrite Z.add_0_r in *.
    apply binary_round_aux_canonical; assumption. }
  unfold binary_round_aux at 1. unfold shr_fexp at 1. cbn [Zdigits2 shr_record_of_loc].
  rewrite Zdigits_shift, Hd, fexp_normal by lia.
  replace (53 + Z.of_nat (S q) + e - 53 - e) with (Zpos (Pos.of_succ_nat q)) by lia.
  cbn [shr]. rewrite iter_pos_nat, SuccNat2Pos.id_succ.
  rewrite shr_1_shift_all.
  cbn [shr_m loc_of_shr_record round_nearest_even].
  unfold shr_fexp. cbn [Zdigits2 shr_record_of_loc].
  rewrite Hd, fexp_normal by lia.
  replace (53 + (e + Z.pos (Pos.of_succ_nat q)) - 53 - (e + Z.pos (Pos.of_succ_nat q)))
    with 0 by lia.
  rewrite shr_zero. cbn [shr_m].
  replace (e + Z.pos (Pos.of_succ_nat q) <=? emax - prec) with true.
  - f_equal; lia.
  - symmetry. apply Z.leb_le. unfold emax, prec. lia.
Qed.

Lemma canonical_digits V :
  Zpos (digits2_pos V) <= 53 →
  Zpos (digits2_pos (Nat.iter (53 - Pos.to_nat (digits2_pos V)) xO V)) = 53.
Proof. intros Hd. rewrite Zdigits_shift. lia. Qed.

(** Rounding an integer below 2^53, whatever its scaling by a power of two,
    gives its canonical form: nothing is rounded off. *)
Lemma binary_round_shift s V k :
  Zpos (digits2_pos V) <= 53 → Z.of_nat k <= 1000 →
  binary_round prec emax s (Nat.iter k xO V) (- Z.of_nat k) = canonical s V.
Proof.
  intros Hd Hk. unfold binary_round, canonical.
  rewrite Zdigits_shift, fexp_normal by lia.
  pose proof (canonical_digits V Hd) as Hcanon.
  set (c := (53 - Pos.to_nat (digits2_pos V))%nat) in *.
  assert (Hc : Z.of_nat c = 53 - Zpos (digits2_pos V)) by lia.
  unfold shl_align.
  destruct (Nat.lt_trichotomy k c) as [Hlt | [-> | Hgt]].
  - assert (∃ t, c = (S t + k)%nat) as [t Ht] by (exists (c - k - 1)%nat; lia).
    replace (Z.pos (digits2_pos V) + Z.of_nat k + - Z.of_nat k - 53 - - Z.of_nat k)
      with (Zneg (Pos.of_succ_nat t)) by lia.
    rewrite Pos2Nat.inj_iter, SuccNat2Pos.id_succ.
    fold (Nat.iter (S t) xO (Nat.iter k xO V)). rewrite <- Nat.iter_add, <- Ht.
    rewrite binary_round_aux_canonical; [f_equal; lia | exact Hcanon | lia].
  - replace (Z.pos (digits2_pos V) + Z.of_nat c + - Z.of_nat c - 53 - - Z.of_nat c)
      with 0 by lia.
    rewrite binary_round_aux_canonical; [f_equal; lia | exact Hcanon | lia].
  - assert (∃ t, k = (S t + c)%nat) as [t ->] by (exists (k - c - 1)%nat; lia).
    replace (Z.pos (digits2_pos V) + Z.of_nat (S t + c) + - Z.of_nat (S t + c) - 53
             - - Z.of_nat (S t + c))
      with (Zpos (Pos.of_succ_nat t)) by lia.
    rewrite Nat.iter_add.
    rewrite binary_round_aux_shift; [f_equal; lia | exact Hcanon | lia | lia].
Qed.

Lemma SF_of_Z_pos V : Zpos V < 2 ^ 53 → SF_of_Z (Zpos V) = canonical false V.
Proof.
  intros HV. apply (digits_bound V 53) in HV; [| lia].
  exact (binary_round_shift false V 0 HV ltac:(lia)).
Qed.

Lemma SF_of_Z_neg V : Zpos V < 2 ^ 53 → SF_of_Z (Zneg V) = canonical true V.
Proof.
  intros HV. apply (digits_bound V 53) in HV; [| lia].
  exact (binary_round_shift true V 0 HV ltac:(lia)).
Qed.

Lemma SF_of_Z_cases z :
  Z.abs z < 2 ^ 53 →
  (z = 0 ∧ SF_of_Z z = S754_zero false) ∨
  (∃ V, Z.abs z = Zpos V ∧ Zpos (digits2_pos V) <= 53 ∧
        SF_of_Z z = canonical (z <? 0) V).
Proof.
  intros Hz. destruct z as [| V | V].
  - left. split; reflexivity.
  - right. exists V. split; [reflexivity | split].
    + apply (digits_bound V 53); lia.
    + apply SF_of_Z_pos. lia.
  - right. exists V. split; [reflexivity | split].
    + apply (digits_bound V 53); lia.
    + apply SF_of_Z_neg. lia.
Qed.

Lemma shl_align_value m ex ez :
  ez <= ex → Zpos (fst (shl_align m ex ez)) = Zpos m * 2 ^ (ex - ez).
Proof.
  intros Hle. unfold shl_align. destruct (ez - ex) as [| t | t] eqn:Ht; cbn [fst].
  - replace (ex - ez) with 0 by lia. lia.
  - lia.
  - rewrite Pos2Nat.inj_iter. fold (Nat.iter (Pos.to_nat t) xO m).
    rewrite Zpos_shift, positive_nat_Z. f_equal. f_equal. lia.
Qed.

Lemma binary_normalize_scaled z k :
  Z.abs z < 2 ^ 53 → 0 <= k <= 1000 →
  binary_normalize prec emax (z * 2 ^ k) (- k) false = SF_of_Z z.
Proof.
  intros Hz Hk.
  assert (Hshift : ∀ V, Zpos V * 2 ^ k = Zpos (Nat.iter (Z.to_nat k) xO V)).
  { intros V. rewrite Zpos_shift, Z2Nat.id by lia. reflexivity. }
  assert (Hk' : - k = - Z.of_nat (Z.to_nat k)) by (rewrite Z2Nat.id; lia).
  destruct z as [| V | V].
  - reflexivity.
  - rewrite Hshift, Hk'. cbn [binary_normalize].
    rewrite (binary_round_shift false V (Z.to_nat k));
      [symmetry; apply SF_of_Z_pos; lia | | lia].
    apply (digits_bound V 53); lia.
  - rewrite <- Pos2Z.opp_pos, Z.mul_opp_l, Hshift, Hk'.
    rewrite !Pos2Z.opp_pos. cbn [binary_normalize].
    rewrite (binary_round_shift true V (Z.to_nat k));
      [symmetry; apply SF_of_Z_neg; lia | | lia].
    apply (digits_bound V 53); lia.
Qed.

(** The binary64 difference of two integers is their difference when the
    three of them are below 2^53 in magnitude. *)
Lemma SFsub_exact a b :
  Z.abs a < 2 ^ 53 → Z.abs b < 2 ^ 53 → Z.abs (a - b) < 2 ^ 53 →
  SF64sub (SF_of_Z a) (SF_of_Z b) = SF_of_Z (a - b).
Proof.
  intros Ha Hb Hab.
  destruct (SF_of_Z_cases a Ha) as [[-> ->] | (A & HA & HdA & ->)];
  destruct (SF_of_Z_cases b Hb) as [[-> ->] | (B & HB & HdB & ->)].
  - reflexivity.
  - unfold canonical. cbn [SF64sub SFsub].
    destruct b as [| B' | B']; try discriminate; cbn in HB; injection HB as ->;
      cbn [Z.ltb Z.compare negb Z.sub Z.opp Z.add].
    + symmetry. apply SF_of_Z_neg. lia.
    + symmetry. apply SF_of_Z_pos. lia.
  - rewrite Z.sub_0_r. unfold canonical. cbn [SF64sub SFsub].
    destruct a as [| A' | A']; try discriminate; cbn in HA; injection HA as ->;
      cbn [Z.ltb Z.compare].
    + symmetry. apply SF_of_Z_pos. lia.
    + symmetry. apply SF_of_Z_neg. lia.
  - unfold canonical. cbn [SF64sub SFsub].
    set (ex := Z.pos (digits2_pos A) - 53). set (ey := Z.pos (digits2_pos B) - 53).
    set (mx := Nat.iter (53 - Pos.to_nat (digits2_pos A)) xO A).
    set (my := Nat.iter (53 - Pos.to_nat (digits2_pos B)) xO B).
    rewrite (shl_align_value mx ex (Z.min ex ey)) by lia.
    rewrite (shl_align_value my ey (Z.min ex ey)) by lia.
    assert (Hmx : Zpos mx = Zpos A * 2 ^ (- ex)).
    { unfold mx, ex. rewrite Zpos_shift.
      replace (Z.of_nat (53 - Pos.to_nat (digits2_pos A)))
        with (- (Z.pos (digits2_pos A) - 53)) by lia.
      reflexivity. }
    assert (Hmy : Zpos my = Zpos B * 2 ^ (- ey)).
    { unfold my, ey. rewrite Zpos_shift.
      replace (Z.of_nat (53 - Pos.to_nat (digits2_pos B)))
        with (- (Z.pos (digits2_pos B) - 53)) by lia.
      reflexivity. }
    rewrite Hmx, Hmy.
    assert (Hval : cond_Zopp (a <? 0) (Z.pos A * 2 ^ (- ex) * 2 ^ (ex - Z.min ex ey))
                   - cond_Zopp (b <? 0) (Z.pos B * 2 ^ (- ey) * 2 ^ (ey - Z.min ex ey))
                   = (a - b) * 2 ^ (- Z.min ex ey)).
    { rewrite <- !Z.mul_assoc, <- !Z.pow_add_r by lia.
      replace (- ex + (ex - Z.min ex ey)) with (- Z.min ex ey) by lia.
      replace (- ey + (ey - Z.min ex ey)) with (- Z.min ex ey) by lia.
      generalize (2 ^ (- Z.min ex ey)). intros p.
      assert (Ha' : a = cond_Zopp (a <? 0) (Zpos A)).
      { destruct (Z.ltb_spec a 0); cbn [cond_Zopp]; lia. }
      assert (Hb' : b = cond_Zopp (b <? 0) (Zpos B)).
      { destruct (Z.ltb_spec b 0); cbn [cond_Zopp]; lia. }
      rewrite Ha' at 2. rewrite Hb' at 2.
      destruct (a <? 0), (b <? 0); cbn [cond_Zopp]; lia. }
    rewrite Hval.
    replace (Z.min ex ey) with (- - Z.min ex ey) at 2 by lia.
    apply binary_normalize_scaled; [exact Hab | lia].
Qed.

Lemma SFabs_exact z :
  Z.abs z < 2 ^ 53 → SFabs (SF_of_Z z) = SF_of_Z (Z.abs z).
Proof.
  intros Hz. destruct z as [| V | V]; [reflexivity | |].
  - change (Z.abs (Z.pos V)) with (Z.pos V) in *.
    rewrite SF_of_Z_pos by lia. reflexivity.
  - change (Z.abs (Z.neg V)) with (Z.pos V) in *.
    rewrite SF_of_Z_neg, SF_of_Z_pos by lia. reflexivity.
Qed.

Lemma compare_shift c A B :
  Pos.compare_cont Eq (Nat.iter c xO A) (Nat.iter c xO B) = Pos.compare A B.
Proof.
  induction c as [| c IH]; [reflexivity |].
  rewrite !Nat.iter_succ. cbn [Pos.compare_cont]. exact IH.
Qed.

(** The binary64 comparison of two non-negative integers below 2^53 is
    their comparison. *)
Lemma SFltb_exact a b :
  0 <= a < 2 ^ 53 → 0 <= b < 2 ^ 53 →
  SFltb (SF_of_Z a) (SF_of_Z b) = (a <? b).
Proof.
  intros Ha Hb.
  destruct a as [| A | A]; [| | lia]; destruct b as [| B | B]; try lia.
  - reflexivity.
  - rewrite SF_of_Z_pos by lia. reflexivity.
  - rewrite SF_of_Z_pos by lia. reflexivity.
  - rewrite !SF_of_Z_pos by lia. unfold canonical, SFltb. cbn [SFcompare].
    assert (HdA : Zpos (digits2_pos A) <= 53) by (apply (digits_bound A 53); lia).
    assert (HdB : Zpos (digits2_pos B) <= 53) by (apply (digits_bound B 53); lia).
    destruct (Z.compare_spec (Z.pos (digits2_pos A) - 53) (Z.pos (digits2_pos B) - 53))
      as [Heq | Hlt | Hgt].
    + assert (Hd : digits2_pos A = digits2_pos B) by lia. rewrite Hd, compare_shift.
      change (Z.pos A <? Z.pos B)
        with (match Pos.compare A B with Lt => true | _ => false end).
      reflexivity.
    + symmetry. apply Z.ltb_lt. apply digits_lt. lia.
    + symmetry. apply Z.ltb_ge. apply Z.lt_le_incl. apply digits_lt. lia.
Qed.

Lemma number_of_Z_valid z : Z.abs z < 2 ^ 53 → valid_binary (SF_of_Z z) = true.
Proof.
  intros Hz. destruct (SF_of_Z_cases z Hz) as [[-> ->] | (V & HV & Hd & ->)]; [reflexivity |].
  unfold canonical. cbn [SpecFloat.valid_binary]. unfold bounded, canonical_mantissa.
  rewrite canonical_digits by exact Hd.
  rewrite fexp_normal by lia.
  apply andb_true_iff.
  split; [apply Z.eqb_eq; lia | apply Z.leb_le; unfold emax, prec; lia].
Qed.

Lemma Prim2SF_number_of_Z z : Z.abs z < 2 ^ 53 → Prim2SF (number_of_Z z) = SF_of_Z z.
Proof. intros Hz. apply Prim2SF_SF2Prim, number_of_Z_valid, Hz. Qed.

Lemma distance_exact m z :
  Z.abs m < 2 ^ 53 → Z.abs z < 2 ^ 53 → Z.abs (m - z) < 2 ^ 53 →
  Prim2SF (abs (number_of_Z m - number_of_Z z)) = SF_of_Z (Z.abs (m - z)).
Proof.
  intros Hm Hz Hd.
  rewrite abs_spec, sub_spec, !Prim2SF_number_of_Z by assumption.
  rewrite SFsub_exact by assumption. apply SFabs_exact, Hd.
Qed.

(** The test of the reduction, on integers on which nothing rounds. *)
Lemma closer_test_exact m m' z :
  Z.abs m < 2 ^ 53 → Z.abs m' < 2 ^ 53 → Z.abs z < 2 ^ 53 →
  Z.abs (m - z) < 2 ^ 53 → Z.abs (m' - z) < 2 ^ 53 →
  (abs (number_of_Z m - number_of_Z z) <? abs (number_of_Z m' - number_of_Z z))%float
  = (Z.abs (m - z) <? Z.abs (m' - z)).
Proof.
  intros. rewrite ltb_spec, !distance_exact by assumption.
  apply SFltb_exact; lia.
Qed.

(** ** The interval quantizer *)

Lemma validIntervals_catalog : validIntervals = map inject Exact.validIntervals.
Proof. reflexivity. Qed.

Lemma validIntervals_durations :
  validIntervals =
  [ {| display := "1m"; ms := 60000 |}; {| display := "5m"; ms := 300000 |};
    {| display := "15m"; ms := 900000 |}; {| display := "30m"; ms := 1800000 |};
    {| display := "1h"; ms := 3600000 |}; {| display := "6h"; ms := 21600000 |};
    {| display := "12h"; ms := 43200000 |}; {| display := "1d"; ms := 86400000 |} ].
Proof. reflexivity. Qed.

Lemma closer_cases stepMS best v :
  (distance stepMS v < distance stepMS best ∧ Exact.closer stepMS best v = v) ∨
  (distance stepMS best <= distance stepMS v ∧ Exact.closer stepMS best v = best).
Proof.
  unfold Exact.closer, distance.
  destruct (Z.ltb_spec (Z.abs (Exact.ms v - stepMS)) (Z.abs (Exact.ms best - stepMS))); auto.
Qed.

Lemma first_nearest_snoc stepMS seen i best v :
  first_nearest stepMS seen i best →
  ∃ i', first_nearest stepMS (seen ++ [v]) i' (Exact.closer stepMS best v).
Proof.
  intros (Hi & Hmin & Hfirst).
  destruct (closer_cases stepMS best v) as [[Hlt ->] | [Hle ->]].
  - exists (length seen). split; [| split].
    + by rewrite lookup_app_r, Nat.sub_diag.
    + intros j e' Hj. apply lookup_app_Some in Hj as [Hj | [_ Hj]].
      * specialize (Hmin j e' Hj). lia.
      * apply list_lookup_singleton_Some in Hj as [_ <-]. lia.
    + intros j e' Hlen Hj. rewrite lookup_app_l in Hj by done.
      specialize (Hmin j e' Hj). lia.
  - exists i. split; [| split].
    + apply lookup_app_l_Some, Hi.
    + intros j e' Hj. apply lookup_app_Some in Hj as [Hj | [_ Hj]].
      * eauto.
      * apply list_lookup_singleton_Some in Hj as [_ <-]. lia.
    + intros j e' Hlt Hj. apply lookup_lt_Some in Hi.
      rewrite lookup_app_l in Hj by lia. eauto.
Qed.

Lemma fold_closer_first_nearest stepMS l :
  ∀ seen i best,
    first_nearest stepMS seen i best →
    ∃ i', first_nearest stepMS (seen ++ l) i' (fold_left (Exact.closer stepMS) l best).
Proof.
  induction l as [| v l IH]; intros seen i best Hbest; simpl.
  - rewrite app_nil_r. eauto.
  - destruct (first_nearest_snoc stepMS seen i best v Hbest) as [i' Hi'].
    destruct (IH _ _ _ Hi') as [i'' Hi''].
    exists i''. by rewrite <- app_assoc in Hi''.
Qed.

Lemma closestMatch_first_nearest stepMS first rest :
  ∃ i e, Exact.closestMatch (first :: rest) stepMS = Some e ∧
         first_nearest stepMS (first :: rest) i e.
Proof.
  assert (Hseed : first_nearest stepMS [first] 0 first).
  { split; [done | split].
    - intros j e' Hj. apply list_lookup_singleton_Some in Hj as [_ <-]. lia.
    - intros j e' Hj. lia. }
  destruct (fold_closer_first_nearest stepMS rest [first] 0%nat first Hseed) as [i Hi].
  exists i, (fold_left (Exact.closer stepMS) rest first). split; [| exact Hi].
  unfold Exact.closestMatch. simpl. f_equal. f_equal.
  destruct (closer_cases stepMS first first) as [[Hlt _] | [_ Heq]]; [lia | done].
Qed.

Lemma catalog_in_a_day : Forall in_a_day Exact.validIntervals.
Proof. repeat constructor; cbn; lia. Qed.

Lemma closer_inject stepMS best v :
  exact_step stepMS → in_a_day best → in_a_day v →
  closer (number_of_Z stepMS) (inject best) (inject v)
    = inject (Exact.closer stepMS best v).
Proof.
  unfold exact_step, in_a_day. intros Hstep Hbest Hv.
  unfold closer, Exact.closer. cbn [ms inject].
  rewrite closer_test_exact by lia. by destruct (_ <? _).
Qed.

Lemma closer_in_a_day stepMS best v :
  in_a_day best → in_a_day v → in_a_day (Exact.closer stepMS best v).
Proof. intros Hbest Hv. unfold Exact.closer. by destruct (_ <? _). Qed.

Lemma fold_closer_inject stepMS l :
  exact_step stepMS → Forall in_a_day l →
  ∀ best, in_a_day best →
    fold_left (closer (number_of_Z stepMS)) (map inject l) (inject best)
      = inject (fold_left (Exact.closer stepMS) l best).
Proof.
  intros Hstep Hall. induction Hall as [| v l Hv _ IH]; intros best Hbest; [done |].
  cbn [map fold_left]. rewrite closer_inject by done.
  apply IH. by apply closer_in_a_day.
Qed.

(** On an integer step on which nothing rounds, the source computes what the
    exact reduction computes. *)
Lemma getValidInterval_exact stepMS :
  exact_step stepMS →
  getValidInterval (number_of_Z stepMS) = Exact.getValidInterval stepMS.
Proof.
  intros Hstep. unfold getValidInterval, Exact.getValidInterval.
  rewrite validIntervals_catalog.
  pose proof catalog_in_a_day as Hall.
  destruct Exact.validIntervals as [| first rest]; [done |].
  cbn [map closestMatch Exact.closestMatch fmap option_fmap option_map].
  rewrite <- (map_cons inject).
  rewrite fold_closer_inject; [done | done | done | by inversion Hall].
Qed.

Lemma closer_in stepMS best v (l : list Interval) :
  best ∈ l → v ∈ l → closer stepMS best v ∈ l.
Proof. intros Hbest Hv. unfold closer. by destruct (_ <? _)%float. Qed.

Lemma fold_closer_in stepMS (l all : list Interval) :
  (∀ v, v ∈ l → v ∈ all) →
  ∀ best, best ∈ all → fold_left (closer stepMS) l best ∈ all.
Proof.
  induction l as [| v l IH]; intros Hsub best Hbest; [done |].
  cbn [fold_left]. apply IH.
  - intros w Hw. apply Hsub. by apply list_elem_of_further.
  - apply closer_in; [done |]. apply Hsub, list_elem_of_here.
Qed.

(** Whatever the step, the reduction returns an entry of the catalog. *)
Lemma getValidInterval_in_catalog stepMS :
  ∃ e, e ∈ validIntervals ∧ getValidInterval stepMS = Some (display e).
Proof.
  unfold getValidInterval.
  assert (Hne : validIntervals ≠ []) by (rewrite validIntervals_durations; discriminate).
  destruct validIntervals as [| first rest] eqn:Hv; [done |].
  cbn [closestMatch]. eexists. split; [| reflexivity].
  apply fold_closer_in; [done | apply list_elem_of_here].
Qed.

Lemma getValidInterval_total stepMS : ∃ d, getValidInterval stepMS = Some d.
Proof.
  destruct (getValidInterval_in_catalog stepMS) as (e & _ & He). by exists (display e).
Qed.

(** C1, as the source has it.  The durations of the catalog are 60000,
    300000, 900000, 1800000, 3600000, 21600000, 43200000 and 86400000
    milliseconds.  For every integer step of magnitude below 2^53 - 86400000
    (on which no binary64 subtraction of the reduction rounds),
    [getValidInterval] returns the display string of an entry whose duration
    is at the least absolute difference from the step; every entry before it
    in the catalog is strictly farther, so that among entries equally close
    the earlier one is returned, and at the exact midpoint of two consecutive
    entries the smaller one is returned.  For every number whatever, it
    returns the display string of an entry of the catalog: there is no error
    path. *)
Theorem getValidInterval_nearest (stepMS : Z) :
  Z.abs stepMS < 2 ^ 53 - 86400000 →
  let catalog :=
    [ ("1m", 60000); ("5m", 300000); ("15m", 900000); ("30m", 1800000);
      ("1h", 3600000); ("6h", 21600000); ("12h", 43200000); ("1d", 86400000) ] in
  map (fun e => (display e, ms e)) validIntervals
    = [ ("1m", 60000%float); ("5m", 300000%float); ("15m", 900000%float);
        ("30m", 1800000%float); ("1h", 3600000%float); ("6h", 21600000%float);
        ("12h", 43200000%float); ("1d", 86400000%float) ] ∧
  (∃ (i : nat) (d : string) (m : Z),
      catalog !! i = Some (d, m) ∧
      getValidInterval (number_of_Z stepMS) = Some d ∧
      (∀ (j : nat) d' m', catalog !! j = Some (d', m') →
               Z.abs (m - stepMS) <= Z.abs (m' - stepMS)) ∧
      (∀ (j : nat) d' m', (j < i)%nat → catalog !! j = Some (d', m') →
               Z.abs (m - stepMS) < Z.abs (m' - stepMS))) ∧
  (∀ (i : nat) d m d' m',
      catalog !! i = Some (d, m) → catalog !! S i = Some (d', m') →
      2 * stepMS = m + m' →
      m < m' ∧ getValidInterval (number_of_Z stepMS) = Some d) ∧
  (∀ step : float,
      ∃ e, e ∈ validIntervals ∧ getValidInterval step = Some (display e)).
Proof.
  intros Hstep catalog.
  cut (∀ P Q R S : Prop, S → P ∧ Q ∧ R → P ∧ Q ∧ R ∧ S); [| tauto].
  intros Hcut. apply Hcut; [exact getValidInterval_in_catalog |]. clear Hcut.
  assert (Hcatalog : catalog = map (fun e => (Exact.display e, Exact.ms e)) Exact.validIntervals)
    by reflexivity.
  rewrite (getValidInterval_exact stepMS Hstep).
  split; [reflexivity | split].
  - unfold Exact.getValidInterval. unfold Exact.validIntervals at 1.
    match goal with |- context [Exact.closestMatch (?f :: ?r) _] =>
      destruct (closestMatch_first_nearest stepMS f r) as (i & e & -> & Hi & Hmin & Hfirst)
    end.
    fold Exact.validIntervals in Hi, Hmin, Hfirst.
    exists i, (Exact.display e), (Exact.ms e). split; [| split; [done | split]].
    + by rewrite Hcatalog, list_lookup_fmap, Hi.
    + intros j d' m' Hj. rewrite Hcatalog, list_lookup_fmap in Hj.
      destruct (Exact.validIntervals !! j) as [e' |] eqn:He'; [| done].
      injection Hj as <- <-. exact (Hmin j e' He').
    + intros j d' m' Hlt Hj. rewrite Hcatalog, list_lookup_fmap in Hj.
      destruct (Exact.validIntervals !! j) as [e' |] eqn:He'; [| done].
      injection Hj as <- <-. exact (Hfirst j e' Hlt He').
  - intros i d m d' m' Ha Hb Hmid. subst catalog.
    do 7 (destruct i as [| i];
          [ cbn in Ha, Hb; injection Ha as <- <-; injection Hb as <- <-;
            split; [lia |];
            match type of Hmid with 2 * _ = ?s =>
              assert (Hs : stepMS = s / 2) by (apply Z.div_unique_exact; lia)
            end; rewrite Hs; reflexivity |]).
    destruct i; discriminate.
Qed.

Lemma getValidInterval_nearest_witness :
  getValidInterval (number_of_Z 180000) = Some "1m".
Proof.
  assert (Hstep : Z.abs 180000 < 2 ^ 53 - 86400000) by (cbn; lia).
  destruct (getValidInterval_nearest 180000 Hstep) as (_ & _ & Hmid & _).
  apply (Hmid 0%nat "1m" 60000 "5m" 300000); [reflexivity | reflexivity | lia].
Defined.

(** At 2^79 the eight binary64 differences round to two values only, and the
    entry returned is not the nearest: one day is nearer than twelve hours. *)
Lemma getValidInterval_rounds_at_2_79 :
  number_of_Z (2 ^ 79) = 604462909807314587353088%float ∧
  getValidInterval 604462909807314587353088 = Some "12h" ∧
  Z.abs (86400000 - 2 ^ 79) < Z.abs (43200000 - 2 ^ 79).
Proof. split; [reflexivity | split; [reflexivity | cbn; lia]]. Qed.

(** The library divides the seconds by 0.001 in binary64; on the catalog the
    quotient is the integer number of milliseconds. *)
#[warnings="-inexact-float"]
Example timestring_quotients_exact :
  (60 / 0.001 = 60000 ∧ 300 / 0.001 = 300000 ∧ 900 / 0.001 = 900000 ∧
   1800 / 0.001 = 1800000 ∧ 3600 / 0.001 = 3600000 ∧ 21600 / 0.001 = 21600000 ∧
   43200 / 0.001 = 43200000 ∧ 86400 / 0.001 = 86400000)%float.
Proof. repeat split. Qed.

Example getValidInterval_7_minutes : getValidInterval (1000 * 60 * 7) = Some "5m".
Proof. reflexivity. Qed.

Example getValidInterval_3_minutes : getValidInterval (1000 * 60 * 3) = Some "1m".
Proof. reflexivity. Qed.

Example getValidInterval_negative : getValidInterval (-1) = Some "1m".
Proof. reflexivity. Qed.

Example getValidInterval_nan : getValidInterval nan = Some "1m".
Proof. reflexivity. Qed.

Example getValidInterval_2_81 : getValidInterval 2417851639229258349412352 = Some "1m".
Proof. reflexivity. Qed.

(** ** The metric name resolver *)

Lemma configured_cases type metricType :
  (type = "Microsoft.Compute/virtualMachines" ∧
   configured type metricType =
     match metricType with
     | cpu => Some "Percentage CPU"
     | ram => Some "Available Memory Bytes"
     | _ => None
     end) ∨
  (type = "Microsoft.DBforMySQL/flexibleServers" ∧
   configured type metricType =
     match metricType with
     | cpu => Some "cpu_percent"
     | memory_percent => Some "memory_percent"
     | disk => Some "storage_percent"
     | ram => None
     end) ∨
  (get_property String.eqb metricNamesForResourceType type = None ∧
   configured type metricType = None).
Proof.
  unfold configured, metricNamesForResourceType. cbn [get_property].
  destruct (String.eqb_spec "Microsoft.Compute/virtualMachines" type) as [<- | _].
  { left. split; [done |]. by destruct metricType. }
  destruct (String.eqb_spec "Microsoft.DBforMySQL/flexibleServers" type) as [<- | _].
  { right; left. split; [done |]. by destruct metricType. }
  right; right. done.
Qed.

Lemma mapMetricName_configured options metricType :
  let type := default defaultResourceType (resource_type options) in
  mapMetricName options metricType =
    match configured type metricType with
    | Some native => Ok native
    | None => Exit (UnsupportedMetric metricType type)
    end.
Proof.
  intros type. unfold mapMetricName, metricNames_of_type. fold type.
  destruct (configured_cases type metricType) as [[-> ->] | [[-> ->] | [Hnone ->]]].
  - by destruct metricType.
  - by destruct metricType.
  - rewrite Hnone. by destruct (existsb _ _).
Qed.

(** C5. The configuration table, pair by pair: for virtual machines cpu is
    "Percentage CPU" and ram is "Available Memory Bytes"; for MySQL flexible
    servers cpu is "cpu_percent", memory_percent is "memory_percent" and disk
    is "storage_percent".  For every pair in the table [mapMetricName]
    returns exactly the configured provider name; for every pair whose
    resource type is not in the table, or whose metric is not in the
    sub-mapping of its resource type, it ends the run as an unsupported
    metric, and such a run starts no command and writes no progress line. *)
Theorem mapMetricName_table (options : IAZPluginOptions) (metricType : MetricType) :
  let type := default defaultResourceType (resource_type options) in
  (type = "Microsoft.Compute/virtualMachines" →
     mapMetricName options metricType =
       match metricType with
       | cpu => Ok "Percentage CPU"
       | ram => Ok "Available Memory Bytes"
       | memory_percent | disk => Exit (UnsupportedMetric metricType type)
       end) ∧
  (type = "Microsoft.DBforMySQL/flexibleServers" →
     mapMetricName options metricType =
       match metricType with
       | cpu => Ok "cpu_percent"
       | memory_percent => Ok "memory_percent"
       | disk => Ok "storage_percent"
       | ram => Exit (UnsupportedMetric metricType type)
       end) ∧
  (type ≠ "Microsoft.Compute/virtualMachines" →
   type ≠ "Microsoft.DBforMySQL/flexibleServers" →
     mapMetricName options metricType = Exit (UnsupportedMetric metricType type)) ∧
  (∀ names native,
     (type, names) ∈ metricNamesForResourceType → (metricType, native) ∈ names →
     mapMetricName options metricType = Ok native) ∧
  ((∀ names native,
      (type, names) ∈ metricNamesForResourceType → (metricType, native) ∉ names) →
     mapMetricName options metricType = Exit (UnsupportedMetric metricType type)) ∧
  (∀ env args sched,
     default cpu (metric options) = metricType →
     mapMetricName options metricType = Exit (UnsupportedMetric metricType type) →
     execute env args options sched =
       {| outcome := Exit (UnsupportedMetric metricType type);
          progress := []; invocations := [] |}).
Proof.
  intros type. pose proof (mapMetricName_configured options metricType) as Hmap.
  cbv zeta in Hmap. fold type in Hmap.
  assert (Hvm : type = "Microsoft.Compute/virtualMachines" →
            mapMetricName options metricType =
              match metricType with
              | cpu => Ok "Percentage CPU"
              | ram => Ok "Available Memory Bytes"
              | memory_percent | disk => Exit (UnsupportedMetric metricType type)
              end).
  { intros Ht. rewrite Hmap, Ht. by destruct metricType. }
  assert (Hmysql : type = "Microsoft.DBforMySQL/flexibleServers" →
            mapMetricName options metricType =
              match metricType with
              | cpu => Ok "cpu_percent"
              | memory_percent => Ok "memory_percent"
              | disk => Ok "storage_percent"
              | ram => Exit (UnsupportedMetric metricType type)
              end).
  { intros Ht. rewrite Hmap, Ht. by destruct metricType. }
  assert (Hother : type ≠ "Microsoft.Compute/virtualMachines" →
            type ≠ "Microsoft.DBforMySQL/flexibleServers" →
            mapMetricName options metricType = Exit (UnsupportedMetric metricType type)).
  { intros Hne1 Hne2. rewrite Hmap.
    destruct (configured_cases type metricType) as [[Ht _] | [[Ht _] | [_ ->]]]; done. }
  split; [exact Hvm | split; [exact Hmysql | split; [exact Hother | split; [| split]]]].
  - intros names native Hnames Hnative. unfold metricNamesForResourceType in Hnames.
    apply elem_of_cons in Hnames as [Heq | Hnames].
    { injection Heq as Ht ->. rewrite (Hvm Ht).
      repeat (apply elem_of_cons in Hnative as [[= -> ->] | Hnative]; [done |]).
      by apply elem_of_nil in Hnative. }
    apply elem_of_cons in Hnames as [Heq | Hnames]; [| by apply elem_of_nil in Hnames].
    injection Heq as Ht ->. rewrite (Hmysql Ht).
    repeat (apply elem_of_cons in Hnative as [[= -> ->] | Hnative]; [done |]).
    by apply elem_of_nil in Hnative.
  - intros Habsent.
    destruct (decide (type = "Microsoft.Compute/virtualMachines")) as [Ht | Hne1].
    { rewrite (Hvm Ht).
      destruct metricType; try done; exfalso;
        eapply (Habsent _ _ ltac:(rewrite Ht; apply list_elem_of_here));
        [apply list_elem_of_here | apply list_elem_of_further, list_elem_of_here]. }
    destruct (decide (type = "Microsoft.DBforMySQL/flexibleServers")) as [Ht | Hne2];
      [| by apply Hother].
    rewrite (Hmysql Ht).
    destruct metricType; try done; exfalso;
      eapply (Habsent _ _
                ltac:(rewrite Ht; apply list_elem_of_further, list_elem_of_here));
      [ apply list_elem_of_here
      | apply list_elem_of_further, list_elem_of_here
      | do 2 apply list_elem_of_further; apply list_elem_of_here ].
  - intros env args sched Hm Hexit. unfold execute.
    destruct (getValidInterval_total (step args)) as [d ->].
    by rewrite Hm, Hexit.
Qed.

(** The pairs of the table, one by one. *)
Example configured_pairs :
  configured "Microsoft.Compute/virtualMachines" cpu = Some "Percentage CPU" ∧
  configured "Microsoft.Compute/virtualMachines" ram = Some "Available Memory Bytes" ∧
  configured "Microsoft.DBforMySQL/flexibleServers" cpu = Some "cpu_percent" ∧
  configured "Microsoft.DBforMySQL/flexibleServers" memory_percent = Some "memory_percent" ∧
  configured "Microsoft.DBforMySQL/flexibleServers" disk = Some "storage_percent" ∧
  configured "Microsoft.Compute/virtualMachines" disk = None ∧
  configured "constructor" cpu = None.
Proof. repeat split. Qed.

(** ** The unit transform *)

(** C7. For every reduced value [v], the RAM metric divides it by
    1,000,000,000 and the metrics cpu, memory_percent and disk leave it
    unchanged; the point emitted for a raw point whose reduced value is [v]
    carries that value. *)
Theorem transformValue_units (v : float) :
  transformValue (num v) ram = num (v / 1000000000)%float ∧
  transformValue (num v) cpu = num v ∧
  transformValue (num v) memory_percent = num v ∧
  transformValue (num v) disk = num v ∧
  (∀ point metricType,
     average point ?? minimum point ?? maximum point = num v →
     mapTimeSeriesDataPoint point metricType =
       Some (NewDate (timeStamp point),
             match metricType with
             | ram => num (v / 1000000000)%float
             | _ => num v
             end)).
Proof.
  repeat split.
  intros point metricType Hv. unfold mapTimeSeriesDataPoint. rewrite Hv.
  by destruct metricType.
Qed.

Example transformValue_ram_gigabytes : transformValue (num 2000000000) ram = num 2.
Proof. reflexivity. Qed.

Example transformValue_cpu_unchanged : transformValue (num 42) cpu = num 42.
Proof. reflexivity. Qed.

(** ** The data point normalizer *)

Lemma nullish_reduced point :
  average point ?? minimum point ?? maximum point = reduced point.
Proof.
  unfold reduced. by destruct (average point), (minimum point).
Qed.

Lemma usable_reduced point : usable (reduced point) = negb (all_missing point).
Proof.
  unfold reduced, all_missing.
  by destruct (average point), (minimum point), (maximum point).
Qed.

Lemma mapTimeSeriesDataPoint_reduced point metricType :
  mapTimeSeriesDataPoint point metricType =
    if all_missing point then None
    else Some (NewDate (timeStamp point), transformValue (reduced point) metricType).
Proof.
  unfold mapTimeSeriesDataPoint. rewrite nullish_reduced.
  pose proof (usable_reduced point) as Hu.
  destruct (reduced point), (all_missing point); simpl in Hu; congruence.
Qed.

Lemma mapSeries_cons point rawSeries metricType :
  mapSeries (point :: rawSeries) metricType =
    (if all_missing point then []
     else [Some (NewDate (timeStamp point), transformValue (reduced point) metricType)])
    ++ mapSeries rawSeries metricType.
Proof.
  unfold mapSeries. cbn [map List.filter].
  rewrite mapTimeSeriesDataPoint_reduced. by destruct (all_missing point).
Qed.

(** C3. Normalization gives every raw point one value, the average if it is
    present and not null, else the minimum, else the maximum; a point whose
    three fields are all absent or null gives [null] and is not in the
    output; the output is, in the order of the input, the points that have a
    value, and it holds no [null]. *)
Theorem mapSeries_reduces_and_drops (rawSeries : list IMetricDataPoint) (metricType : MetricType) :
  (∀ point,
     mapTimeSeriesDataPoint point metricType =
       if all_missing point then None
       else Some (NewDate (timeStamp point), transformValue (reduced point) metricType)) ∧
  mapSeries rawSeries metricType =
    map (fun point => Some (NewDate (timeStamp point), transformValue (reduced point) metricType))
        (List.filter (fun point => negb (all_missing point)) rawSeries) ∧
  (None ∉ mapSeries rawSeries metricType) ∧
  sublist (List.filter (fun point => negb (all_missing point)) rawSeries) rawSeries.
Proof.
  split; [intros; apply mapTimeSeriesDataPoint_reduced |].
  assert (Hclosed : mapSeries rawSeries metricType =
    map (fun point => Some (NewDate (timeStamp point), transformValue (reduced point) metricType))
        (List.filter (fun point => negb (all_missing point)) rawSeries)).
  { induction rawSeries as [| point rest IH]; [done |].
    rewrite mapSeries_cons, IH. cbn [List.filter].
    by destruct (all_missing point). }
  split; [exact Hclosed | split].
  - rewrite Hclosed. intros Hin. apply list_elem_of_fmap in Hin as (p & Hp & _).
    discriminate.
  - clear Hclosed. induction rawSeries as [| point rest IH]; [constructor |].
    cbn [List.filter]. destruct (negb (all_missing point)); by constructor.
Qed.

Example mapTimeSeriesDataPoint_average :
  mapTimeSeriesDataPoint
    {| average := num 5; minimum := num 1; maximum := num 9; timeStamp := "t" |} cpu
  = Some (NewDate "t", num 5).
Proof. reflexivity. Qed.

Example mapTimeSeriesDataPoint_minimum :
  mapTimeSeriesDataPoint
    {| average := undefined; minimum := num 1; maximum := num 9; timeStamp := "t" |} cpu
  = Some (NewDate "t", num 1).
Proof. reflexivity. Qed.

Example mapTimeSeriesDataPoint_maximum :
  mapTimeSeriesDataPoint
    {| average := null; minimum := undefined; maximum := num 9; timeStamp := "t" |} cpu
  = Some (NewDate "t", num 9).
Proof. reflexivity. Qed.

Example mapSeries_drops_empty_point :
  mapSeries
    [ {| average := num 5; minimum := num 1; maximum := num 9; timeStamp := "t0" |};
      {| average := undefined; minimum := undefined; maximum := undefined; timeStamp := "t1" |};
      {| average := null; minimum := num 1; maximum := num 9; timeStamp := "t2" |} ] cpu
  = [ Some (NewDate "t0", num 5); Some (NewDate "t2", num 1) ].
Proof. reflexivity. Qed.

(** ** The time-series fetcher *)

(** C9. [getTimeSeries] reads [timeseries.length] without a guard: on the
    parsed payload it returns normally exactly when the [value] array is not
    empty and its first element has a [timeseries] array; then it returns
    [null] exactly when that array is empty, and else the [data] of its
    first element.  On a payload whose [value] array is empty the read of
    [length] on [undefined] is reached, a TypeError; and after a command
    that succeeded, [getTimeSeries] is that reading of its payload. *)
Theorem firstTimeSeries_unguarded (payload : MetricsPayload) :
  ((∃ r, firstTimeSeries payload = Ok r) ↔
   (∃ v rest ts, value payload = v :: rest ∧ timeseries v = Some ts)) ∧
  (∀ v rest ts,
     value payload = v :: rest → timeseries v = Some ts →
     (firstTimeSeries payload = Ok None ↔ ts = []) ∧
     (∀ ts0 more, ts = ts0 :: more → firstTimeSeries payload = Ok (Some (data ts0)))) ∧
  (value payload = [] → firstTimeSeries payload = Throw TypeError) ∧
  (∀ v rest, value payload = v :: rest → timeseries v = None →
             firstTimeSeries payload = Throw TypeError) ∧
  (∀ env id options,
     az_monitor_metrics_list env (monitor_metrics_command id options)
       = {| code := 0; stdout := Some payload |} →
     getTimeSeries env id options = firstTimeSeries payload).
Proof.
  unfold firstTimeSeries. split; [split |]; [| | split; [| split; [| split]]].
  - intros [r Hr]. destruct (value payload) as [| v rest]; [done |].
    destruct (timeseries v) as [ts |] eqn:Hts; [eauto | done].
  - intros (v & rest & ts & -> & ->). destruct ts; eauto.
  - intros v rest ts -> ->. split; [split |].
    + by destruct ts.
    + by intros ->.
    + by intros ts0 more ->.
  - by intros ->.
  - by intros v rest -> ->.
  - intros env id0 options Hexec. unfold getTimeSeries, az, execOrFail.
    by rewrite Hexec.
Qed.

Example firstTimeSeries_empty_value :
  firstTimeSeries {| value := [] |} = Throw TypeError.
Proof. reflexivity. Qed.

Example firstTimeSeries_no_series :
  firstTimeSeries {| value := [ {| timeseries := Some [] |} ] |} = Ok None.
Proof. reflexivity. Qed.

(** ** The legacy normalization *)

Lemma Legacy_mapSeries_cons point rawSeries metricType :
  Legacy.mapSeries (point :: rawSeries) metricType =
    (if Legacy.average_not_null point
     then [(NewDate (timeStamp point), Legacy.transformValue (average point) metricType)]
     else [])
    ++ Legacy.mapSeries rawSeries metricType.
Proof.
  unfold Legacy.mapSeries. cbn [List.filter].
  by destruct (Legacy.average_not_null point).
Qed.

(** C10. In the legacy variant a raw point is kept exactly when its average
    is not [null]; the point emitted carries the transform of the average,
    so that a point whose average is absent is kept with the transform of
    [undefined] ([undefined] itself, or NaN for the RAM metric); the minimum
    and the maximum of a point never change the output. *)
Theorem Legacy_mapSeries_average_only (rawSeries : list IMetricDataPoint)
    (metricType : Legacy.MetricType) :
  (∀ point rest,
     Legacy.mapSeries (point :: rest) metricType =
       match average point with
       | null => Legacy.mapSeries rest metricType
       | v => (NewDate (timeStamp point), Legacy.transformValue v metricType)
              :: Legacy.mapSeries rest metricType
       end) ∧
  Legacy.transformValue undefined Legacy.cpu = undefined ∧
  Legacy.transformValue undefined Legacy.ram = num nan ∧
  (∀ rawSeries',
     Forall2 (fun x y => average x = average y ∧ timeStamp x = timeStamp y)
             rawSeries rawSeries' →
     Legacy.mapSeries rawSeries metricType = Legacy.mapSeries rawSeries' metricType).
Proof.
  repeat split.
  - intros point rest. rewrite Legacy_mapSeries_cons.
    unfold Legacy.average_not_null. by destruct (average point).
  - intros rawSeries' Hsame.
    induction Hsame as [| x y l l' [Havg Hts] _ IH]; [done |].
    rewrite !Legacy_mapSeries_cons, IH. unfold Legacy.average_not_null.
    by rewrite Havg, Hts.
Qed.

Example Legacy_keeps_absent_average :
  Legacy.mapSeries
    [ {| average := undefined; minimum := num 1; maximum := num 9; timeStamp := "t0" |};
      {| average := null; minimum := num 1; maximum := num 9; timeStamp := "t1" |};
      {| average := num 5; minimum := num 1; maximum := num 9; timeStamp := "t2" |} ]
    Legacy.ram
  = [ (NewDate "t0", num nan); (NewDate "t2", num (5 / 1000000000)%float) ].
Proof. reflexivity. Qed.

(** ** The resource lister *)

Lemma array_filter_pure {A : Type} (p : A → Result bool) (q : A → bool) (l : list A) :
  (∀ x, x ∈ l → p x = Ok (q x)) →
  array_filter p l = Ok (List.filter q l).
Proof.
  induction l as [| x l IH]; intros Hp; [done |].
  cbn [array_filter List.filter].
  rewrite (Hp x) by apply list_elem_of_here.
  rewrite IH by (intros y Hy; apply Hp; by apply list_elem_of_further).
  by destruct (q x).
Qed.

Lemma filter_true {A : Type} (l : list A) : List.filter (fun _ => true) l = l.
Proof. induction l as [| x l IH]; [done |]. cbn. by rewrite IH. Qed.

Lemma filter_sublist {A : Type} (q : A → bool) (l : list A) : sublist (List.filter q l) l.
Proof.
  induction l as [| x l IH]; [constructor |].
  cbn [List.filter]. destruct (q x); by constructor.
Qed.

(** C8. When [az resource list] succeeds with the resources [listed]: if the
    pattern is absent or empty every listed resource is returned; otherwise
    a resource is returned exactly when the expression built from the
    pattern without flags (hence case-sensitive), applied with [test] (hence
    matching anywhere in the name), accepts its name; in both cases the
    result keeps the order of the listing. *)
Theorem getVMIds_filter (env : Env) (options : IAZPluginOptions) (listed : list AZResourceJson) :
  az_resource_list env (resource_list_command options)
    = {| code := 0; stdout := Some listed |} →
  (filter options = None ∨ filter options = Some EmptyString →
     getVMIds env options = Ok (map id_and_name listed)) ∧
  (∀ pattern test,
     filter options = Some pattern → pattern ≠ EmptyString →
     RegExp env pattern = Some test →
     getVMIds env options
       = Ok (map id_and_name (List.filter (fun x => test (res_name x)) listed)) ∧
     (∀ x, x ∈ List.filter (fun x => test (res_name x)) listed ↔
           x ∈ listed ∧ test (res_name x) = true) ∧
     sublist (List.filter (fun x => test (res_name x)) listed) listed).
Proof.
  intros Hexec. unfold getVMIds, az, execOrFail. rewrite Hexec. cbn. split.
  - intros Hnone.
    rewrite (array_filter_pure _ (fun _ => true)).
    + cbn. by rewrite filter_true.
    + intros x _. unfold matches_filter. by destruct Hnone as [-> | ->].
  - intros pattern test Hpat Hne Htest. split; [| split].
    + rewrite (array_filter_pure _ (fun x => test (res_name x))); [done |].
      intros x _. unfold matches_filter. rewrite Hpat. cbn.
      destruct pattern; [done |]. cbn. by rewrite Htest.
    + intros x. rewrite !list_elem_of_In, filter_In. done.
    + apply filter_sublist.
Qed.

Lemma getVMIds_filter_witness :
  getVMIds sample_env web_options
    = Ok [ {| id := "/vm/web-1"; name := "web-1" |};
           {| id := "/vm/web-2"; name := "web-2" |} ] ∧
  getVMIds sample_env sample_options = Ok sample_vmIds.
Proof.
  split.
  - destruct (getVMIds_filter sample_env web_options sample_listing eq_refl) as [_ Hsome].
    destruct (Hsome "^web" (String.prefix "web")) as [Heq _];
      [reflexivity | discriminate | reflexivity |].
    exact Heq.
  - destruct (getVMIds_filter sample_env sample_options sample_listing eq_refl) as [Hnone _].
    apply Hnone. by left.
Defined.

(** ** Completion orders *)

Lemma completion_order_perm {A : Type} (sched : list nat) :
  ∀ pending : list A, completion_order sched pending ≡ₚ pending.
Proof.
  induction sched as [| i sched IH]; intros pending; [done |].
  cbn [completion_order].
  destruct (pending !! (i mod length pending)%nat) as [x |] eqn:Hx; [| done].
  rewrite IH, Permutation_middle. by rewrite take_drop_middle.
Qed.

(** Every order of completion is the order of some schedule. *)
Lemma completion_order_complete {A : Type} (order : list A) :
  ∀ pending : list A, order ≡ₚ pending → ∃ sched, completion_order sched pending = order.
Proof.
  induction order as [| x order IH]; intros pending Hperm.
  - apply Permutation_nil_l in Hperm as ->. by exists [].
  - assert (Hin : x ∈ pending) by (rewrite <- Hperm; apply list_elem_of_here).
    apply list_elem_of_lookup in Hin as [j Hj].
    pose proof (lookup_lt_Some _ _ _ Hj) as Hlt.
    assert (Hrest : order ≡ₚ take j pending ++ drop (S j) pending).
    { apply (Permutation_cons_inv (a := x)).
      rewrite Hperm, Permutation_middle. by rewrite take_drop_middle. }
    destruct (IH _ Hrest) as [sched Hsched].
    exists (j :: sched). cbn [completion_order].
    rewrite Nat.mod_small by done. by rewrite Hj, Hsched.
Qed.

(** ** The completions of a run *)

Section Settle.

Context (env : Env) (metricType : MetricType) (timeSeriesFlags : string) (totalQueries : nat).

Lemma settle_never_rejects order st :
  (∃ d, (settle env metricType timeSeriesFlags totalQueries order st).1 = Ok d) ∨
  (∃ c, (settle env metricType timeSeriesFlags totalQueries order st).1 = Exit c).
Proof.
  revert st. induction order as [| vm order IH]; intros st; cbn [settle].
  - left. by eexists.
  - destruct (getTimeSeries env (id vm) timeSeriesFlags); [apply IH | |]; right; by eexists.
Qed.

Lemma settle_returns_iff order st :
  (∃ d, (settle env metricType timeSeriesFlags totalQueries order st).1 = Ok d)
  ↔ Forall (fetched env timeSeriesFlags) order.
Proof.
  revert st. induction order as [| vm order IH]; intros st; cbn [settle].
  - split; [constructor | by eexists].
  - destruct (getTimeSeries env (id vm) timeSeriesFlags) as [raw | c | e] eqn:Hget.
    + rewrite IH. split.
      * intros Hall. constructor; [by exists raw | done].
      * by inversion 1.
    + split; [by intros [d Hd] |]. inversion 1 as [| ? ? [raw Hraw] _]; subst. congruence.
    + split; [by intros [d Hd] |]. inversion 1 as [| ? ? [raw Hraw] _]; subst. congruence.
Qed.

Lemma settled_counts vm rawSeries st :
  completedQueries (settled metricType totalQueries vm rawSeries st)
    = S (completedQueries st) ∧
  written (settled metricType totalQueries vm rawSeries st)
    = written st ++ [ {| completed := S (completedQueries st); total := totalQueries |} ].
Proof.
  unfold settled, logProgress. destruct rawSeries; cbn; rewrite Nat.add_1_r; done.
Qed.

(** The lines written by the completions continue the count by one each, one
    line per completion handled. *)
Lemma settle_written order :
  ∀ st, ∃ j,
    (j ≤ length order)%nat ∧
    written (settle env metricType timeSeriesFlags totalQueries order st).2
      = written st
        ++ map (fun c => {| completed := c; total := totalQueries |})
               (seq (S (completedQueries st)) j) ∧
    ((∃ d, (settle env metricType timeSeriesFlags totalQueries order st).1 = Ok d) →
     j = length order).
Proof.
  induction order as [| vm order IH]; intros st; cbn [settle].
  - exists 0%nat. cbn. by rewrite app_nil_r.
  - destruct (getTimeSeries env (id vm) timeSeriesFlags) as [raw | c | e].
    + destruct (IH (settled metricType totalQueries vm raw st)) as (j & Hj & Hw & Hok).
      destruct (settled_counts vm raw st) as [Hc Hw1].
      exists (S j). split; [cbn; lia | split].
      * rewrite Hw, Hw1, Hc, <- app_assoc. done.
      * intros Hd. cbn. f_equal. auto.
    + exists 0%nat. cbn. split; [lia | split; [by rewrite app_nil_r |]].
      by intros [d Hd].
    + exists 0%nat. cbn. split; [lia | split; [by rewrite app_nil_r |]].
      by intros [d Hd].
Qed.

End Settle.

Lemma progress_upto_lookup N k i p :
  progress_upto N k !! i = Some p → completed p = i ∧ total p = N ∧ (i ≤ k)%nat.
Proof.
  unfold progress_upto. rewrite list_lookup_fmap. intros Hp.
  destruct (seq 0 (S k) !! i) as [c |] eqn:Hc; [| done].
  apply lookup_seq in Hc as [-> Hlt]. injection Hp as <-. cbn. lia.
Qed.

(** The shape of a run that reached the listing of its resources. *)
Lemma execute_fan_out env args options sched intervalValue metricName vmIds :
  getValidInterval (step args) = Some intervalValue →
  mapMetricName options (default cpu (metric options)) = Ok metricName →
  getVMIds env options = Ok vmIds →
  let flags := timeSeriesFlags_of args metricName intervalValue in
  let result :=
    settle env (default cpu (metric options)) flags (length vmIds)
      (completion_order sched vmIds) (logProgress (length vmIds) initialState) in
  execute env args options sched =
    {| outcome := result.1; progress := written result.2;
       invocations :=
         resource_list_command options
         :: map (fun vm => monitor_metrics_command (id vm) flags) vmIds |}.
Proof.
  intros Hint Hmap Hlist. unfold execute. rewrite Hint, Hmap, Hlist.
  cbv zeta. by destruct (settle _ _ _ _ _ _).
Qed.

(** ** Progress *)

(** C4. In a run that listed N resources, whatever the order of completion:
    the progress lines are (0, N), written before the queries start, then
    one line per completion handled, counting 1, 2, ... in steps of one;
    the total is N on every line and the count never exceeds it; a run that
    returns has written exactly N lines after the first, and a run all of
    whose fetches return does return. *)
Theorem execute_progress (env : Env) (args : ITSAPluginArgs) (options : IAZPluginOptions)
    (sched : list nat) (intervalValue metricName : string) (vmIds : list IAZResource) :
  getValidInterval (step args) = Some intervalValue →
  mapMetricName options (default cpu (metric options)) = Ok metricName →
  getVMIds env options = Ok vmIds →
  let N := length vmIds in
  let run := execute env args options sched in
  (∃ k, (k ≤ N)%nat ∧ progress run = progress_upto N k ∧
        ((∃ d, outcome run = Ok d) → k = N)) ∧
  (∀ i p, progress run !! i = Some p →
          completed p = i ∧ total p = N ∧ (completed p ≤ total p)%nat) ∧
  (Forall (fetched env (timeSeriesFlags_of args metricName intervalValue)) vmIds →
   (∃ d, outcome run = Ok d) ∧ progress run = progress_upto N N ∧
   length (progress run) = S N).
Proof.
  intros Hint Hmap Hlist N run. subst run.
  rewrite (execute_fan_out _ _ _ _ _ _ _ Hint Hmap Hlist). cbv zeta. cbn [outcome progress].
  fold N.
  set (flags := timeSeriesFlags_of args metricName intervalValue).
  set (order := completion_order sched vmIds).
  set (result := settle env (default cpu (metric options)) flags N order
                   (logProgress N initialState)).
  assert (Hlen : length order = N)
    by (unfold order, N; by rewrite (completion_order_perm sched vmIds)).
  destruct (settle_written env (default cpu (metric options)) flags N order
              (logProgress N initialState)) as (k & Hk & Hw & Hok).
  fold result in Hw, Hok.
  assert (Hupto : written result.2 = progress_upto N k) by (rewrite Hw; reflexivity).
  rewrite Hlen in Hk, Hok.
  split; [| split].
  - exists k. auto.
  - intros i p Hp. rewrite Hupto in Hp.
    apply progress_upto_lookup in Hp as (Hc & Ht & Hi). rewrite Hc, Ht. lia.
  - intros Hall.
    assert (Hret : ∃ d, result.1 = Ok d).
    { apply settle_returns_iff. unfold order.
      by rewrite (completion_order_perm sched vmIds). }
    split; [exact Hret |]. rewrite Hupto, (Hok Hret).
    split; [done |]. unfold progress_upto. by rewrite length_map, length_seq.
Qed.

Lemma sample_env_lists : getVMIds sample_env sample_options = Ok sample_vmIds.
Proof. reflexivity. Qed.

Lemma sample_env_fetched : Forall (fetched sample_env sample_flags) sample_vmIds.
Proof. repeat constructor; eexists; vm_compute; reflexivity. Qed.

Lemma execute_progress_witness :
  getVMIds sample_env sample_options = Ok sample_vmIds ∧
  progress (execute sample_env sample_args sample_options [2; 0]%nat) = progress_upto 3 3.
Proof.
  split; [reflexivity |].
  apply (execute_progress sample_env sample_args sample_options [2; 0]%nat
           "5m" "Percentage CPU" sample_vmIds eq_refl eq_refl eq_refl).
  repeat constructor; eexists; vm_compute; reflexivity.
Defined.

Example progress_of_failing_run :
  let run := execute failing_env sample_args sample_options [0; 0]%nat in
  outcome run
    = Exit (CommandFailed (monitor_metrics_command "/vm/web-2" sample_flags)) ∧
  progress run = progress_upto 3 1.
Proof. vm_compute. done. Qed.

(** ** Failing commands *)

Lemma getTimeSeries_nonzero env id0 options :
  code (az_monitor_metrics_list env (monitor_metrics_command id0 options)) ≠ 0 →
  getTimeSeries env id0 options = Exit (CommandFailed (monitor_metrics_command id0 options)).
Proof.
  intros Hcode. unfold getTimeSeries, az, execOrFail.
  by destruct (Z.eqb_spec (code (az_monitor_metrics_list env
                                   (monitor_metrics_command id0 options))) 0).
Qed.

Lemma getVMIds_nonzero env options :
  code (az_resource_list env (resource_list_command options)) ≠ 0 →
  getVMIds env options = Exit (CommandFailed (resource_list_command options)).
Proof.
  intros Hcode. unfold getVMIds, az, execOrFail.
  by destruct (Z.eqb_spec (code (az_resource_list env (resource_list_command options))) 0).
Qed.

Lemma mapMetricName_never_throws options metricType e :
  mapMetricName options metricType ≠ Throw e.
Proof.
  pose proof (mapMetricName_configured options metricType) as Hmap. cbv zeta in Hmap.
  rewrite Hmap. by destruct (configured _ _).
Qed.

(** C6. A command that exits with a non-zero code ends the whole run: when
    it is the listing, the run exits before any progress line and before any
    query; when it is the query of any one listed resource, the run exits
    whatever the order of completion, and every command was started once
    (the listing, then one query per resource: nothing is tried again);
    a run returns its map only if the fetch of every listed resource
    returned, so that no failure is confined to one resource. *)
Theorem nonzero_exit_is_run_fatal (env : Env) (args : ITSAPluginArgs)
    (options : IAZPluginOptions) (sched : list nat) :
  let run := execute env args options sched in
  let listing := resource_list_command options in
  (code (az_resource_list env listing) ≠ 0 →
     (∃ c, outcome run = Exit c) ∧ progress run = [] ∧
     (∀ metricName,
        mapMetricName options (default cpu (metric options)) = Ok metricName →
        outcome run = Exit (CommandFailed listing) ∧ invocations run = [listing])) ∧
  (∀ intervalValue metricName vmIds vm,
     getValidInterval (step args) = Some intervalValue →
     mapMetricName options (default cpu (metric options)) = Ok metricName →
     getVMIds env options = Ok vmIds →
     vm ∈ vmIds →
     code (az_monitor_metrics_list env
             (monitor_metrics_command (id vm)
                (timeSeriesFlags_of args metricName intervalValue))) ≠ 0 →
     (∃ c, outcome run = Exit c) ∧
     invocations run =
       listing :: map (fun vm => monitor_metrics_command (id vm)
                                   (timeSeriesFlags_of args metricName intervalValue)) vmIds) ∧
  (∀ d, outcome run = Ok d →
     ∃ intervalValue metricName vmIds,
       getValidInterval (step args) = Some intervalValue ∧
       mapMetricName options (default cpu (metric options)) = Ok metricName ∧
       getVMIds env options = Ok vmIds ∧
       Forall (fetched env (timeSeriesFlags_of args metricName intervalValue)) vmIds).
Proof.
  intros run listing. subst run listing. split; [| split].
  - intros Hcode. unfold execute.
    destruct (getValidInterval_total (step args)) as [iv ->].
    rewrite (getVMIds_nonzero _ _ Hcode).
    destruct (mapMetricName options (default cpu (metric options))) as [mn | c | e] eqn:Hmap.
    + cbn. split; [by eexists | split; [done |]]. by intros ? _.
    + cbn. split; [by eexists | split; [done |]]. by intros ? ?.
    + by apply mapMetricName_never_throws in Hmap.
  - intros iv mn vmIds vm Hint Hmap Hlist Hvm Hcode.
    rewrite (execute_fan_out _ _ _ _ _ _ _ Hint Hmap Hlist). cbv zeta.
    cbn [outcome invocations]. split; [| done].
    match goal with |- ∃ c, ?r.1 = Exit c => set (result := r) end.
    destruct (settle_never_rejects env (default cpu (metric options))
                (timeSeriesFlags_of args mn iv) (length vmIds)
                (completion_order sched vmIds)
                (logProgress (length vmIds) initialState)) as [Hok | Hexit]; [| done].
    exfalso. apply settle_returns_iff in Hok.
    rewrite (completion_order_perm sched vmIds) in Hok.
    rewrite Forall_forall in Hok. destruct (Hok vm Hvm) as [raw Hraw].
    rewrite (getTimeSeries_nonzero _ _ _ Hcode) in Hraw. done.
  - intros d. unfold execute.
    destruct (getValidInterval (step args)) as [iv |] eqn:Hint; [| done].
    destruct (mapMetricName options (default cpu (metric options))) as [mn | c | e] eqn:Hmap;
      [| done | done].
    destruct (getVMIds env options) as [vmIds | c | e] eqn:Hlist; [| done | done].
    destruct (settle env _ _ _ _ _) as [out st] eqn:Hsettle. cbn [outcome].
    intros ->. exists iv, mn, vmIds. repeat split.
    rewrite <- (completion_order_perm sched vmIds).
    apply (settle_returns_iff env (default cpu (metric options)) _ (length vmIds) _
             (logProgress (length vmIds) initialState)).
    exists d. by rewrite Hsettle.
Qed.

Lemma nonzero_exit_is_run_fatal_witness :
  (∃ c, outcome (execute failing_env sample_args sample_options [1; 0]%nat) = Exit c) ∧
  invocations (execute failing_env sample_args sample_options [1; 0]%nat) =
    [ resource_list_command sample_options;
      monitor_metrics_command "/vm/web-1" sample_flags;
      monitor_metrics_command "/vm/web-2" sample_flags;
      monitor_metrics_command "/vm/db-1" sample_flags ].
Proof.
  destruct (nonzero_exit_is_run_fatal failing_env sample_args sample_options [1; 0]%nat)
    as (_ & Hquery & _).
  apply (Hquery "5m" "Percentage CPU" sample_vmIds (id_and_name
           {| res_id := "/vm/web-2"; res_name := "web-2"; others := "eastus" |}));
    try reflexivity.
  - apply list_elem_of_further, list_elem_of_here.
  - vm_compute. discriminate.
Defined.

(** ** Null series and empty series *)

Section SettleData.

Context (env : Env) (metricType : MetricType) (timeSeriesFlags : string) (totalQueries : nat).

Lemma settled_labeled_null vm st :
  labeled (settled metricType totalQueries vm None st) = labeled st.
Proof. reflexivity. Qed.

Lemma settled_labeled_series vm rawSeries st :
  labeled (settled metricType totalQueries vm (Some rawSeries) st)
    = <[ name vm := mapSeries rawSeries metricType ]> (labeled st).
Proof. reflexivity. Qed.

Lemma settled_labeled_other vm rawSeries st (label : string) :
  label ≠ name vm →
  labeled (settled metricType totalQueries vm rawSeries st) !! label = labeled st !! label.
Proof.
  intros Hne. destruct rawSeries as [raw |]; [| done].
  rewrite settled_labeled_series. by rewrite lookup_insert_ne.
Qed.

(** The map a run returns when the names of the resources are pairwise
    distinct: under the name of a resource, the series of its fetch, and
    what the map held before when the fetch gave [null]. *)
Lemma settle_labeled order :
  ∀ st d,
    NoDup (name <$> order) →
    (settle env metricType timeSeriesFlags totalQueries order st).1 = Ok d →
    (∀ label : string, label ∉ name <$> order → d !! label = labeled st !! label) ∧
    (∀ vm, vm ∈ order →
       (getTimeSeries env (id vm) timeSeriesFlags = Ok None →
        d !! name vm = labeled st !! name vm) ∧
       (∀ rawSeries,
          getTimeSeries env (id vm) timeSeriesFlags = Ok (Some rawSeries) →
          d !! name vm = Some (mapSeries rawSeries metricType))).
Proof.
  induction order as [| vm0 order IH]; intros st d Hnodup Hd.
  - cbn in Hd. injection Hd as <-. split; [done |]. intros vm Hvm. by inversion Hvm.
  - rewrite fmap_cons in Hnodup. apply NoDup_cons in Hnodup as [Hfresh Hnodup].
    cbn [settle] in Hd.
    destruct (getTimeSeries env (id vm0) timeSeriesFlags) as [raw0 | c | e] eqn:Hget;
      [| done | done].
    destruct (IH _ _ Hnodup Hd) as [Hout Hin]. split.
    + intros label Hlabel. rewrite fmap_cons, not_elem_of_cons in Hlabel.
      destruct Hlabel as [Hne Hlabel].
      rewrite (Hout label Hlabel). by apply settled_labeled_other.
    + intros vm Hvm. apply elem_of_cons in Hvm as [-> | Hvm].
      * rewrite (Hout (name vm0) Hfresh). split.
        -- intros Hnull. rewrite Hget in Hnull. by injection Hnull as ->.
        -- intros raw Hraw. rewrite Hget in Hraw. injection Hraw as ->.
           rewrite settled_labeled_series. by rewrite lookup_insert_eq.
      * assert (Hne : name vm ≠ name vm0).
        { intros Heq. apply Hfresh. rewrite <- Heq. by apply list_elem_of_fmap_2. }
        destruct (Hin vm Hvm) as [Hnull Hseries]. split; [| done].
        intros Hvmnull. rewrite (Hnull Hvmnull). by apply settled_labeled_other.
Qed.

End SettleData.

(** C2, as the source has it. When the first [value] element of the answer
    has an empty [timeseries] array the fetch gives [null], and the
    completion of a fetch that gave [null] leaves the map as it was; the
    completion of a fetch whose series normalizes to no point puts the name
    of the resource in the map with the empty series.  In a run that
    returns, when the names of the listed resources are pairwise distinct,
    the map returned has no entry for a resource whose fetch gave [null],
    and has the normalized series, empty or not, under the name of every
    other resource. *)
Theorem null_series_and_empty_series (env : Env) (args : ITSAPluginArgs)
    (options : IAZPluginOptions) (sched : list nat) :
  (∀ payload v rest,
     value payload = v :: rest → timeseries v = Some [] →
     firstTimeSeries payload = Ok None) ∧
  (∀ metricType totalQueries vm st,
     labeled (settled metricType totalQueries vm None st) = labeled st) ∧
  (∀ metricType totalQueries vm rawSeries st,
     mapSeries rawSeries metricType = [] →
     labeled (settled metricType totalQueries vm (Some rawSeries) st) !! name vm = Some []) ∧
  (∀ intervalValue metricName vmIds d,
     getValidInterval (step args) = Some intervalValue →
     mapMetricName options (default cpu (metric options)) = Ok metricName →
     getVMIds env options = Ok vmIds →
     NoDup (name <$> vmIds) →
     outcome (execute env args options sched) = Ok d →
     ∀ vm, vm ∈ vmIds →
       (getTimeSeries env (id vm) (timeSeriesFlags_of args metricName intervalValue)
          = Ok None →
        d !! name vm = None) ∧
       (∀ rawSeries,
          getTimeSeries env (id vm) (timeSeriesFlags_of args metricName intervalValue)
            = Ok (Some rawSeries) →
          d !! name vm = Some (mapSeries rawSeries (default cpu (metric options))) ∧
          (mapSeries rawSeries (default cpu (metric options)) = [] →
           d !! name vm = Some []))).
Proof.
  split; [| split; [| split]].
  - intros payload v rest Hv Hts. unfold firstTimeSeries. by rewrite Hv, Hts.
  - done.
  - intros metricType totalQueries vm rawSeries st Hempty.
    rewrite settled_labeled_series, Hempty. by rewrite lookup_insert_eq.
  - intros iv mn vmIds d Hint Hmap Hlist Hnodup Hd vm Hvm.
    rewrite (execute_fan_out _ _ _ _ _ _ _ Hint Hmap Hlist) in Hd. cbv zeta in Hd.
    cbn [outcome] in Hd.
    assert (Hnodup' : NoDup (name <$> completion_order sched vmIds))
      by (by rewrite (completion_order_perm sched vmIds)).
    assert (Hvm' : vm ∈ completion_order sched vmIds)
      by (by rewrite (completion_order_perm sched vmIds)).
    destruct (settle_labeled env _ _ _ _ _ _ Hnodup' Hd) as [_ Hin].
    destruct (Hin vm Hvm') as [Hnull Hseries]. split.
    + intros Hfetch. by rewrite (Hnull Hfetch).
    + intros raw Hfetch. rewrite (Hseries raw Hfetch). split; [done |]. by intros ->.
Qed.

Lemma null_series_and_empty_series_witness :
  let d := match outcome (execute sample_env sample_args sample_options [1; 1]%nat) with
           | Ok d => d
           | _ => ∅
           end in
  d !! "web-2" = None ∧ d !! "db-1" = Some [].
Proof.
  pose proof (null_series_and_empty_series sample_env sample_args sample_options [1; 1]%nat)
    as (_ & _ & _ & Hrun).
  cbv zeta. destruct (outcome _) as [d | c | e] eqn:Hd; [| by vm_compute in Hd ..].
  assert (Hnodup : NoDup (name <$> sample_vmIds)).
  { cbn. repeat constructor; intros Hin;
      repeat (apply elem_of_cons in Hin as [Hin | Hin]; [discriminate |]);
      by apply elem_of_nil in Hin. }
  specialize (Hrun "5m" "Percentage CPU" sample_vmIds d eq_refl eq_refl eq_refl Hnodup eq_refl).
  split.
  - destruct (Hrun (id_and_name
                {| res_id := "/vm/web-2"; res_name := "web-2"; others := "eastus" |}))
      as [Hnull _].
    + apply list_elem_of_further, list_elem_of_here.
    + by apply Hnull.
  - destruct (Hrun (id_and_name
                {| res_id := "/vm/db-1"; res_name := "db-1"; others := "westus" |}))
      as [_ Hseries].
    + do 2 apply list_elem_of_further. apply list_elem_of_here.
    + by apply (Hseries gap_points).
Defined.

(** An answer whose first [value] element has no [timeseries] array does not
    give [null]: the read of [length] throws, and the run exits instead of
    leaving the resource out; and a name shared by two resources holds the
    series of the one that completed last, here a series with points although
    the first resource normalizes to no point. *)
Lemma missing_timeseries_is_not_null :
  firstTimeSeries {| value := [ {| timeseries := None |} ] |} = Throw TypeError ∧
  firstTimeSeries {| value := [ {| timeseries := None |} ] |} ≠ Ok None ∧
  outcome (execute shapeless_env sample_args sample_options []) = Exit (Caught TypeError) ∧
  getTimeSeries twin_env "/vm/db-1" sample_flags = Ok (Some gap_points) ∧
  mapSeries gap_points cpu = [] ∧
  (∃ d, outcome (execute twin_env sample_args sample_options []) = Ok d ∧
        d !! "twin" = Some (mapSeries sample_points cpu) ∧
        d !! "twin" ≠ Some []).
Proof.
  repeat split; try done.
  eexists. split; [reflexivity |]. split; [reflexivity | by vm_compute].
Qed.

(** * Further properties *)

(** ** The quantizer as a step function *)

Lemma first_nearest_unique stepMS l i e i' e' :
  first_nearest stepMS l i e → first_nearest stepMS l i' e' → i = i' ∧ e = e'.
Proof.
  intros (Hi & Hmin & Hfirst) (Hi' & Hmin' & Hfirst').
  assert (Heq : i = i').
  { destruct (Nat.lt_trichotomy i i') as [Hlt | [Heq | Hlt]]; [| done |].
    - specialize (Hfirst' i e Hlt Hi). specialize (Hmin i' e' Hi'). lia.
    - specialize (Hfirst i' e' Hlt Hi'). specialize (Hmin' i e Hi). lia. }
  subst i'. split; [done | congruence].
Qed.

Ltac catalog_lookup j H :=
  do 8 (destruct j as [| j];
        [ injection H as <-; unfold distance; cbn [Exact.ms]; lia |]);
  discriminate H.

Ltac first_nearest_at n :=
  exists n; split; [done | split]; intros;
  match goal with
  | H : _ !! ?j = Some _ |- _ => catalog_lookup j H
  end.

Lemma threshold_entry_first_nearest stepMS :
  ∃ i, first_nearest stepMS Exact.validIntervals i (threshold_entry stepMS).
Proof.
  unfold Exact.validIntervals, threshold_entry.
  repeat match goal with
         | |- context [?a <=? ?b] => destruct (Z.leb_spec a b)
         end.
  - first_nearest_at 0%nat.
  - first_nearest_at 1%nat.
  - first_nearest_at 2%nat.
  - first_nearest_at 3%nat.
  - first_nearest_at 4%nat.
  - first_nearest_at 5%nat.
  - first_nearest_at 6%nat.
  - first_nearest_at 7%nat.
Qed.

Lemma threshold_entry_in_catalog stepMS : threshold_entry stepMS ∈ Exact.validIntervals.
Proof.
  destruct (threshold_entry_first_nearest stepMS) as (i & Hi & _).
  by apply list_elem_of_lookup_2 in Hi.
Qed.

Lemma closestMatch_threshold stepMS :
  Exact.closestMatch Exact.validIntervals stepMS = Some (threshold_entry stepMS).
Proof.
  destruct (threshold_entry_first_nearest stepMS) as [i Hi].
  revert Hi. unfold Exact.validIntervals. intros Hi.
  match goal with |- context [Exact.closestMatch (?f :: ?r) _] =>
    destruct (closestMatch_first_nearest stepMS f r) as (i' & e & -> & He)
  end.
  f_equal. by destruct (first_nearest_unique _ _ _ _ _ _ He Hi).
Qed.

(** The source on an integer step on which nothing rounds, by thresholds. *)
Lemma getValidInterval_threshold_entry stepMS :
  exact_step stepMS →
  getValidInterval (number_of_Z stepMS) = Some (Exact.display (threshold_entry stepMS)).
Proof.
  intros Hstep. rewrite (getValidInterval_exact stepMS Hstep).
  unfold Exact.getValidInterval. by rewrite closestMatch_threshold.
Qed.

(** X1. On the integer steps of magnitude below 2^53 - 86400000 the
    quantizer is a step function whose steps are the midpoints of consecutive
    catalog entries: up to 3 minutes it gives 1m, up to 10 minutes 5m, up to
    22.5 minutes 15m, up to 45 minutes 30m, up to 3.5 hours 1h, up to 9 hours
    6h, up to 18 hours 12h, and 1d above; zero and negative steps give 1m. *)
Theorem getValidInterval_thresholds (stepMS : Z) :
  Z.abs stepMS < 2 ^ 53 - 86400000 →
  getValidInterval (number_of_Z stepMS) =
    Some (if stepMS <=? 180000 then "1m"
          else if stepMS <=? 600000 then "5m"
          else if stepMS <=? 1350000 then "15m"
          else if stepMS <=? 2700000 then "30m"
          else if stepMS <=? 12600000 then "1h"
          else if stepMS <=? 32400000 then "6h"
          else if stepMS <=? 64800000 then "12h"
          else "1d").
Proof.
  intros Hstep. rewrite (getValidInterval_threshold_entry stepMS Hstep).
  unfold threshold_entry.
  repeat match goal with
         | |- context [?a <=? ?b] => destruct (Z.leb_spec a b)
         end; reflexivity.
Qed.

Lemma getValidInterval_thresholds_witness :
  getValidInterval (number_of_Z 5000000) = Some "1h".
Proof. apply (getValidInterval_thresholds 5000000). cbn. lia. Defined.

(** X2. On the integer steps of magnitude below 2^53 - 86400000 the
    quantizer is monotone: a larger step never gives a shorter interval. *)
Theorem getValidInterval_monotone (stepMS stepMS' : Z) :
  Z.abs stepMS < 2 ^ 53 - 86400000 →
  Z.abs stepMS' < 2 ^ 53 - 86400000 →
  stepMS <= stepMS' →
  ∃ e e' : Exact.Interval,
    inject e ∈ validIntervals ∧ inject e' ∈ validIntervals ∧
    getValidInterval (number_of_Z stepMS) = Some (Exact.display e) ∧
    getValidInterval (number_of_Z stepMS') = Some (Exact.display e') ∧
    Exact.ms e <= Exact.ms e'.
Proof.
  intros Hstep Hstep' Hle. exists (threshold_entry stepMS), (threshold_entry stepMS').
  rewrite !getValidInterval_threshold_entry by done.
  assert (Hin : ∀ s, inject (threshold_entry s) ∈ validIntervals).
  { intros s. rewrite validIntervals_catalog.
    apply list_elem_of_fmap_2, threshold_entry_in_catalog. }
  split; [apply Hin | split; [apply Hin | split; [done | split; [done |]]]].
  unfold threshold_entry.
  repeat match goal with
         | |- context [?a <=? ?b] => destruct (Z.leb_spec a b)
         end; cbn [Exact.ms]; lia.
Qed.

Lemma getValidInterval_monotone_witness :
  ∃ e e' : Exact.Interval,
    inject e ∈ validIntervals ∧ inject e' ∈ validIntervals ∧
    getValidInterval (number_of_Z 420000) = Some (Exact.display e) ∧
    getValidInterval (number_of_Z 5000000) = Some (Exact.display e') ∧
    Exact.ms e <= Exact.ms e'.
Proof. apply (getValidInterval_monotone 420000 5000000); cbn; lia. Defined.

Lemma catalog_fixed_points e :
  e ∈ validIntervals →
  timestring_ms (display e) = Some (ms e) ∧ getValidInterval (ms e) = Some (display e).
Proof.
  rewrite validIntervals_durations. intros Hin.
  repeat (apply elem_of_cons in Hin as [-> | Hin]; [split; reflexivity |]).
  by apply elem_of_nil in Hin.
Qed.

(** X3. Quantizing is idempotent through [timestring]: the interval returned
    for any step has a duration, and the quantizer maps that duration to the
    same interval. *)
Theorem getValidInterval_idempotent (stepMS : float) :
  ∃ d m,
    getValidInterval stepMS = Some d ∧
    timestring_ms d = Some m ∧
    getValidInterval m = Some d.
Proof.
  destruct (getValidInterval_in_catalog stepMS) as (e & He & Hget).
  exists (display e), (ms e). split; [done |]. by apply catalog_fixed_points.
Qed.

(** ** Normalization as a list homomorphism *)

Lemma mapSeries_length rawSeries metricType :
  (length (mapSeries rawSeries metricType) + count_missing rawSeries)%nat = length rawSeries.
Proof.
  unfold count_missing. induction rawSeries as [| point rest IH]; [done |].
  rewrite mapSeries_cons. cbn [List.filter].
  destruct (all_missing point); cbn [app length]; lia.
Qed.

(** X4. Normalizing a series in pieces and concatenating gives the
    normalization of the whole, and the number of points emitted is the
    number of raw points less those without a usable field: nothing else is
    dropped and nothing is added. *)
Theorem mapSeries_app (raw1 raw2 : list IMetricDataPoint) (metricType : MetricType) :
  mapSeries (raw1 ++ raw2) metricType
    = mapSeries raw1 metricType ++ mapSeries raw2 metricType ∧
  (length (mapSeries (raw1 ++ raw2) metricType)
   + count_missing raw1 + count_missing raw2)%nat
    = (length raw1 + length raw2)%nat.
Proof.
  assert (Happ : mapSeries (raw1 ++ raw2) metricType
                 = mapSeries raw1 metricType ++ mapSeries raw2 metricType).
  { unfold mapSeries. by rewrite map_app, List.filter_app. }
  split; [exact Happ |].
  rewrite Happ, length_app.
  pose proof (mapSeries_length raw1 metricType).
  pose proof (mapSeries_length raw2 metricType). lia.
Qed.

Lemma mapSeries_numbers rawSeries metricType (p : option LabeledPoint) :
  p ∈ mapSeries rawSeries metricType → ∃ ts x, p = Some (NewDate ts, num x).
Proof.
  induction rawSeries as [| point rest IH]; [by intros Hin; apply elem_of_nil in Hin |].
  rewrite mapSeries_cons. intros Hin. apply elem_of_app in Hin as [Hin | Hin]; [| auto].
  pose proof (usable_reduced point) as Hu.
  destruct (all_missing point); [by apply elem_of_nil in Hin |].
  apply list_elem_of_singleton in Hin as ->.
  destruct (reduced point) as [| | x]; [done | done |].
  exists (timeStamp point). destruct metricType; by eexists.
Qed.

(** ** The listing: what [getVMIds] can return *)

Lemma array_filter_sublist {A : Type} (p : A → Result bool) (l : list A) :
  ∀ kept, array_filter p l = Ok kept → sublist kept l.
Proof.
  induction l as [| x l IH]; intros kept Hk.
  - injection Hk as <-. constructor.
  - cbn [array_filter] in Hk. destruct (p x) as [keep | c | e]; [| done | done].
    cbn in Hk. destruct (array_filter p l) as [kept' | c | e]; [| done | done].
    cbn in Hk. injection Hk as <-. specialize (IH kept' eq_refl).
    destruct keep; by constructor.
Qed.

(** X5. Whatever the options, when [getVMIds] returns, the command exited
    with code 0, its output was JSON, and the resources returned are the id
    and name of listed resources, in the order of the listing, each listed
    resource at most once: nothing is added, repeated or reordered. *)
Theorem getVMIds_sublist (env : Env) (options : IAZPluginOptions) (vmIds : list IAZResource) :
  getVMIds env options = Ok vmIds →
  ∃ listed,
    code (az_resource_list env (resource_list_command options)) = 0 ∧
    stdout (az_resource_list env (resource_list_command options)) = Some listed ∧
    sublist vmIds (map id_and_name listed) ∧
    (length vmIds ≤ length listed)%nat.
Proof.
  unfold getVMIds, az, execOrFail.
  destruct (Z.eqb_spec (code (az_resource_list env (resource_list_command options))) 0)
    as [Hcode | _]; [| done].
  destruct (stdout (az_resource_list env (resource_list_command options)))
    as [listed |]; [| done].
  cbn. destruct (array_filter _ listed) as [kept | c | e] eqn:Hkept; [| done | done].
  cbn. intros [= <-]. exists listed.
  assert (Hsub : sublist (map id_and_name kept) (map id_and_name listed))
    by (apply (fmap_sublist id_and_name); eapply array_filter_sublist; eauto).
  split; [done | split; [done | split; [done |]]].
  apply sublist_length in Hsub. rewrite !length_map in Hsub. by rewrite length_map.
Qed.

Lemma getVMIds_sublist_witness :
  ∃ listed,
    code (az_resource_list sample_env (resource_list_command web_options)) = 0 ∧
    stdout (az_resource_list sample_env (resource_list_command web_options)) = Some listed ∧
    sublist [ {| id := "/vm/web-1"; name := "web-1" |};
              {| id := "/vm/web-2"; name := "web-2" |} ] (map id_and_name listed) ∧
    (2 ≤ length listed)%nat.
Proof. apply (getVMIds_sublist sample_env web_options). reflexivity. Defined.

(** X6. A pattern that is not a regular expression is fatal exactly when
    there is something to filter: on an empty listing the expression is never
    built and [getVMIds] returns no resource; on any other listing the
    constructor throws, and the run exits through the [catch] of [execute]
    with no progress line written and no query started. *)
Theorem getVMIds_invalid_pattern (env : Env) (options : IAZPluginOptions)
    (pattern : string) (listed : list AZResourceJson) :
  az_resource_list env (resource_list_command options)
    = {| code := 0; stdout := Some listed |} →
  filter options = Some pattern → pattern ≠ EmptyString →
  RegExp env pattern = None →
  getVMIds env options = match listed with
                         | [] => Ok []
                         | _ :: _ => Throw SyntaxError
                         end ∧
  (∀ args sched metricName,
     listed ≠ [] →
     mapMetricName options (default cpu (metric options)) = Ok metricName →
     execute env args options sched =
       {| outcome := Exit (Caught SyntaxError); progress := [];
          invocations := [resource_list_command options] |}).
Proof.
  intros Hexec Hpat Hne Hbad.
  assert (Hget : getVMIds env options = match listed with
                                        | [] => Ok []
                                        | _ :: _ => Throw SyntaxError
                                        end).
  { unfold getVMIds, az, execOrFail. rewrite Hexec. cbn.
    destruct listed as [| x rest]; [done |].
    assert (Hthrow : matches_filter env options x = Throw SyntaxError).
    { unfold matches_filter. rewrite Hpat. destruct pattern; [done |].
      cbn. by rewrite Hbad. }
    cbn [array_filter]. by rewrite Hthrow. }
  split; [exact Hget |].
  intros args sched mn Hnonempty Hmap. unfold execute.
  destruct (getValidInterval_total (step args)) as [iv ->].
  rewrite Hmap, Hget. by destruct listed.
Qed.

Lemma getVMIds_invalid_pattern_witness :
  getVMIds sample_env broken_options = Throw SyntaxError ∧
  getVMIds empty_env broken_options = Ok [].
Proof.
  split.
  - apply (getVMIds_invalid_pattern sample_env broken_options "(web" sample_listing);
      [reflexivity | reflexivity | discriminate | reflexivity].
  - apply (getVMIds_invalid_pattern empty_env broken_options "(web" []);
      [reflexivity | reflexivity | discriminate | reflexivity].
Defined.

Lemma completion_order_nil {A : Type} (sched : list nat) : completion_order sched (@nil A) = [].
Proof. by destruct sched. Qed.

(** X7. When the listing, after filtering, holds no resource, the run
    returns the empty map, having written the single line (0, 0) and started
    no other command than the listing. *)
Theorem execute_no_resources (env : Env) (args : ITSAPluginArgs) (options : IAZPluginOptions)
    (sched : list nat) (metricName : string) :
  mapMetricName options (default cpu (metric options)) = Ok metricName →
  getVMIds env options = Ok [] →
  execute env args options sched =
    {| outcome := Ok ∅; progress := [ {| completed := 0; total := 0 |} ];
       invocations := [resource_list_command options] |}.
Proof.
  intros Hmap Hlist.
  destruct (getValidInterval_total (step args)) as [iv Hint].
  rewrite (execute_fan_out _ _ _ _ _ _ _ Hint Hmap Hlist). cbv zeta.
  by rewrite completion_order_nil.
Qed.

Lemma execute_no_resources_witness :
  execute empty_env sample_args broken_options [3; 1]%nat =
    {| outcome := Ok ∅; progress := [ {| completed := 0; total := 0 |} ];
       invocations := [resource_list_command broken_options] |}.
Proof.
  apply (execute_no_resources empty_env sample_args broken_options [3; 1]%nat
           "Percentage CPU"); reflexivity.
Defined.

(** ** The map a run returns *)

Section SettleMap.

Context (env : Env) (metricType : MetricType) (timeSeriesFlags : string) (totalQueries : nat).

(** Every entry of the map returned was in the map before the completions or
    is the normalized series of a resource of that name. *)
Lemma settle_sound order :
  ∀ st d,
    (settle env metricType timeSeriesFlags totalQueries order st).1 = Ok d →
    ∀ (label : string) s,
      d !! label = Some s →
      labeled st !! label = Some s ∨
      ∃ vm rawSeries,
        vm ∈ order ∧ name vm = label ∧
        has_series env timeSeriesFlags vm rawSeries ∧
        s = mapSeries rawSeries metricType.
Proof.
  induction order as [| vm0 order IH]; intros st d Hd label s Hs.
  - cbn in Hd. injection Hd as <-. by left.
  - cbn [settle] in Hd.
    destruct (getTimeSeries env (id vm0) timeSeriesFlags) as [raw0 | c | e] eqn:Hget;
      [| done | done].
    destruct (IH _ _ Hd label s Hs) as [Hst | (vm & raw & Hvm & Hname & Hraw & Heq)].
    + destruct raw0 as [raw0 |]; [| by left].
      rewrite settled_labeled_series in Hst.
      destruct (decide (name vm0 = label)) as [Hlabel | Hlabel].
      * right. exists vm0, raw0. rewrite <- Hlabel, lookup_insert_eq in Hst.
        injection Hst as <-. repeat split; [apply list_elem_of_here | done | done].
      * left. by rewrite lookup_insert_ne in Hst.
    + right. exists vm, raw. repeat split; [by apply list_elem_of_further | done ..].
Qed.

(** No entry is ever removed, and every series fetched is entered. *)
Lemma settle_complete order :
  ∀ st d,
    (settle env metricType timeSeriesFlags totalQueries order st).1 = Ok d →
    (∀ label : string, is_Some (labeled st !! label) → is_Some (d !! label)) ∧
    (∀ vm rawSeries,
       vm ∈ order → has_series env timeSeriesFlags vm rawSeries →
       is_Some (d !! name vm)).
Proof.
  induction order as [| vm0 order IH]; intros st d Hd.
  - cbn in Hd. injection Hd as <-. split; [done |].
    intros vm raw Hvm. by apply elem_of_nil in Hvm.
  - cbn [settle] in Hd.
    destruct (getTimeSeries env (id vm0) timeSeriesFlags) as [raw0 | c | e] eqn:Hget;
      [| done | done].
    destruct (IH _ _ Hd) as [Hkeep Henter]. split.
    + intros label Hlabel. apply Hkeep.
      destruct raw0 as [raw0 |]; [| done].
      rewrite settled_labeled_series, lookup_insert_is_Some.
      destruct (decide (name vm0 = label)); [by left | by right].
    + intros vm raw Hvm Hraw. apply elem_of_cons in Hvm as [-> | Hvm]; [| eauto].
      apply Hkeep. unfold has_series in Hraw. rewrite Hget in Hraw.
      injection Hraw as ->. rewrite settled_labeled_series, lookup_insert_eq. by eexists.
Qed.

(** The first fetch that fails, in the order of completion, ends the run:
    its cause is the cause of the exit, and the lines written are those of
    the completions before it. *)
Lemma settle_first_failure before :
  ∀ st vm after c,
    Forall (fetched env timeSeriesFlags) before →
    failure_cause env timeSeriesFlags vm = Some c →
    (settle env metricType timeSeriesFlags totalQueries (before ++ vm :: after) st).1
      = Exit c ∧
    written (settle env metricType timeSeriesFlags totalQueries (before ++ vm :: after) st).2
      = written st
        ++ map (fun k => {| completed := k; total := totalQueries |})
               (seq (S (completedQueries st)) (length before)).
Proof.
  induction before as [| vm0 before IH]; intros st vm after c Hall Hcause.
  - cbn [app settle length seq map]. unfold failure_cause in Hcause.
    destruct (getTimeSeries env (id vm) timeSeriesFlags) as [raw | c' | e];
      [done | |]; injection Hcause as <-; by rewrite app_nil_r.
  - apply Forall_cons in Hall as [[raw0 Hraw0] Hall].
    cbn [app settle]. rewrite Hraw0.
    destruct (IH (settled metricType totalQueries vm0 raw0 st) vm after c Hall Hcause)
      as [Hexit Hwritten].
    destruct (settled_counts metricType totalQueries vm0 raw0 st) as [Hc Hw].
    split; [exact Hexit |].
    rewrite Hwritten, Hw, Hc, <- app_assoc. done.
Qed.

(** An order of completion is made of fetches that all return, or has a
    first one that fails. *)
Lemma first_failure_split order :
  Forall (fetched env timeSeriesFlags) order ∨
  ∃ before vm after c,
    order = before ++ vm :: after ∧
    Forall (fetched env timeSeriesFlags) before ∧
    failure_cause env timeSeriesFlags vm = Some c.
Proof.
  induction order as [| vm0 order IH]; [left; constructor |].
  destruct (failure_cause env timeSeriesFlags vm0) as [c |] eqn:Hcause.
  - right. exists [], vm0, order, c. repeat split; [constructor | done].
  - assert (Hfetched : fetched env timeSeriesFlags vm0).
    { unfold failure_cause in Hcause. unfold fetched.
      destruct (getTimeSeries env (id vm0) timeSeriesFlags); [by eexists | done | done]. }
    destruct IH as [Hall | (before & vm & after & c & -> & Hall & Hc)].
    + left. by constructor.
    + right. exists (vm0 :: before), vm, after, c. repeat split; [by constructor | done].
Qed.

End SettleMap.

(** X8. In a run that returns, a label is in the map exactly when some
    listed resource of that name had a series (a fetch that gave [null]
    enters nothing), and the series under a label is the normalized series
    of a listed resource of that name: the map holds nothing else, also
    when several resources share a name. *)
Theorem returned_map_entries (env : Env) (args : ITSAPluginArgs) (options : IAZPluginOptions)
    (sched : list nat) (intervalValue metricName : string) (vmIds : list IAZResource)
    (d : LabeledData) :
  getValidInterval (step args) = Some intervalValue →
  mapMetricName options (default cpu (metric options)) = Ok metricName →
  getVMIds env options = Ok vmIds →
  outcome (execute env args options sched) = Ok d →
  ∀ label : string,
    (is_Some (d !! label) ↔
     ∃ vm rawSeries,
       vm ∈ vmIds ∧ name vm = label ∧
       has_series env (timeSeriesFlags_of args metricName intervalValue) vm rawSeries) ∧
    (∀ s, d !! label = Some s →
       ∃ vm rawSeries,
         vm ∈ vmIds ∧ name vm = label ∧
         has_series env (timeSeriesFlags_of args metricName intervalValue) vm rawSeries ∧
         s = mapSeries rawSeries (default cpu (metric options))).
Proof.
  intros Hint Hmap Hlist Hd label.
  rewrite (execute_fan_out _ _ _ _ _ _ _ Hint Hmap Hlist) in Hd. cbv zeta in Hd.
  cbn [outcome] in Hd.
  assert (Hsound : ∀ s, d !! label = Some s →
            ∃ vm rawSeries,
              vm ∈ vmIds ∧ name vm = label ∧
              has_series env (timeSeriesFlags_of args metricName intervalValue) vm rawSeries ∧
              s = mapSeries rawSeries (default cpu (metric options))).
  { intros s Hs.
    destruct (settle_sound _ _ _ _ _ _ _ Hd label s Hs)
      as [Hinit | (vm & raw & Hvm & Hname & Hraw & Heq)]; [done |].
    exists vm, raw. rewrite (completion_order_perm sched vmIds) in Hvm. done. }
  split; [split |]; [| | exact Hsound].
  - intros [s Hs]. destruct (Hsound s Hs) as (vm & raw & Hvm & Hname & Hraw & _). eauto.
  - intros (vm & raw & Hvm & <- & Hraw).
    destruct (settle_complete _ _ _ _ _ _ _ Hd) as [_ Henter].
    apply (Henter vm raw); [| done]. by rewrite (completion_order_perm sched vmIds).
Qed.

Lemma returned_map_entries_witness :
  let d := match outcome (execute twin_env sample_args sample_options [1]%nat) with
           | Ok d => d
           | _ => ∅
           end in
  is_Some (d !! "twin") ∧ ¬ is_Some (d !! "web-1").
Proof.
  cbv zeta. destruct (outcome _) as [d | c | e] eqn:Hd; [| by vm_compute in Hd ..].
  pose proof (returned_map_entries twin_env sample_args sample_options [1]%nat
                "5m" "Percentage CPU"
                [ {| id := "/vm/db-1"; name := "twin" |}; {| id := "/vm/web-1"; name := "twin" |} ]
                d eq_refl eq_refl eq_refl Hd) as Hentries.
  split.
  - apply (Hentries "twin"). exists {| id := "/vm/web-1"; name := "twin" |}, sample_points.
    repeat split. apply list_elem_of_further, list_elem_of_here.
  - intros Hsome. apply (Hentries "web-1") in Hsome as (vm & raw & Hvm & Hname & _).
    repeat (apply elem_of_cons in Hvm as [-> | Hvm]; [discriminate Hname |]).
    by apply elem_of_nil in Hvm.
Defined.

(** X9. Every point of every series of the map returned is a date with a
    number: no [null], no [undefined] reaches the caller. *)
Theorem returned_map_numbers (env : Env) (args : ITSAPluginArgs) (options : IAZPluginOptions)
    (sched : list nat) (intervalValue metricName : string) (vmIds : list IAZResource)
    (d : LabeledData) (label : string) (s : list (option LabeledPoint))
    (point : option LabeledPoint) :
  getValidInterval (step args) = Some intervalValue →
  mapMetricName options (default cpu (metric options)) = Ok metricName →
  getVMIds env options = Ok vmIds →
  outcome (execute env args options sched) = Ok d →
  d !! label = Some s →
  point ∈ s →
  ∃ ts x, point = Some (NewDate ts, num x).
Proof.
  intros Hint Hmap Hlist Hd Hs Hpoint.
  rewrite (execute_fan_out _ _ _ _ _ _ _ Hint Hmap Hlist) in Hd. cbv zeta in Hd.
  cbn [outcome] in Hd.
  destruct (settle_sound _ _ _ _ _ _ _ Hd label s Hs)
    as [Hinit | (vm & raw & _ & _ & _ & ->)]; [done |].
  by apply mapSeries_numbers in Hpoint.
Qed.

Lemma returned_map_numbers_witness :
  ∃ ts x, Some (NewDate "t2", num 1) = Some (NewDate ts, num x).
Proof.
  destruct (outcome (execute sample_env sample_args sample_options [1]%nat))
    as [d | c | e] eqn:Hd; [| by vm_compute in Hd ..].
  apply (returned_map_numbers sample_env sample_args sample_options [1]%nat
           "5m" "Percentage CPU" sample_vmIds d "web-1"
           (mapSeries sample_points cpu) (Some (NewDate "t2", num 1))
           eq_refl eq_refl eq_refl Hd).
  - vm_compute in Hd. injection Hd as <-. reflexivity.
  - apply list_elem_of_further, list_elem_of_here.
Defined.

(** X10. When no two listed resources share a name, the map a run returns
    does not depend on the order in which the queries complete; and whether
    a run returns does not depend on it either. *)
Theorem returned_map_schedule_independent (env : Env) (args : ITSAPluginArgs)
    (options : IAZPluginOptions) (sched sched' : list nat)
    (intervalValue metricName : string) (vmIds : list IAZResource) :
  getValidInterval (step args) = Some intervalValue →
  mapMetricName options (default cpu (metric options)) = Ok metricName →
  getVMIds env options = Ok vmIds →
  ((∃ d, outcome (execute env args options sched) = Ok d) →
   ∃ d', outcome (execute env args options sched') = Ok d') ∧
  (NoDup (name <$> vmIds) →
   ∀ d, outcome (execute env args options sched) = Ok d →
        outcome (execute env args options sched') = Ok d).
Proof.
  intros Hint Hmap Hlist.
  rewrite !(execute_fan_out _ _ _ _ _ _ _ Hint Hmap Hlist). cbv zeta. cbn [outcome].
  set (flags := timeSeriesFlags_of args metricName intervalValue).
  set (m := default cpu (metric options)).
  set (st0 := logProgress (length vmIds) initialState).
  assert (Hreturns : (∃ d, (settle env m flags (length vmIds)
                              (completion_order sched vmIds) st0).1 = Ok d) →
                     ∃ d', (settle env m flags (length vmIds)
                              (completion_order sched' vmIds) st0).1 = Ok d').
  { rewrite !settle_returns_iff.
    by rewrite (completion_order_perm sched vmIds), (completion_order_perm sched' vmIds). }
  split; [exact Hreturns |].
  intros Hnodup d Hd. destruct (Hreturns (ex_intro _ d Hd)) as [d' Hd'].
  rewrite Hd'. f_equal. apply map_eq. intros label.
  assert (Hall : Forall (fetched env flags) vmIds).
  { rewrite <- (completion_order_perm sched vmIds).
    apply (settle_returns_iff env m flags (length vmIds) _ st0). by exists d. }
  assert (Hnd : ∀ sc, NoDup (name <$> completion_order sc vmIds))
    by (intros sc; by rewrite (completion_order_perm sc vmIds)).
  destruct (settle_labeled env m flags (length vmIds) _ _ _ (Hnd sched) Hd) as [Hout Hin].
  destruct (settle_labeled env m flags (length vmIds) _ _ _ (Hnd sched') Hd') as [Hout' Hin'].
  destruct (decide (label ∈ name <$> vmIds)) as [Hlabel | Hlabel].
  - apply list_elem_of_fmap in Hlabel as (vm & -> & Hvm).
    rewrite Forall_forall in Hall. destruct (Hall vm Hvm) as [[raw |] Hraw].
    + destruct (Hin vm) as [_ Hs];
        [by rewrite (completion_order_perm sched vmIds) |].
      destruct (Hin' vm) as [_ Hs'];
        [by rewrite (completion_order_perm sched' vmIds) |].
      by rewrite (Hs raw Hraw), (Hs' raw Hraw).
    + destruct (Hin vm) as [Hn _];
        [by rewrite (completion_order_perm sched vmIds) |].
      destruct (Hin' vm) as [Hn' _];
        [by rewrite (completion_order_perm sched' vmIds) |].
      by rewrite (Hn Hraw), (Hn' Hraw).
  - rewrite Hout', Hout; [done | |];
      by rewrite (completion_order_perm _ vmIds).
Qed.

Lemma returned_map_schedule_independent_witness :
  outcome (execute sample_env sample_args sample_options [2; 0]%nat)
  = outcome (execute sample_env sample_args sample_options []).
Proof.
  destruct (outcome (execute sample_env sample_args sample_options [2; 0]%nat))
    as [d | c | e] eqn:Hd; [| by vm_compute in Hd ..].
  symmetry.
  apply (returned_map_schedule_independent sample_env sample_args sample_options
           [2; 0]%nat [] "5m" "Percentage CPU" sample_vmIds eq_refl eq_refl eq_refl);
    [| exact Hd].
  cbn. repeat constructor; intros Hin;
    repeat (apply elem_of_cons in Hin as [Hin | Hin]; [discriminate |]);
    by apply elem_of_nil in Hin.
Defined.

(** With a shared name the order of completion shows in the map. *)
Example twin_map_depends_on_schedule :
  outcome (execute twin_env sample_args sample_options [])
  ≠ outcome (execute twin_env sample_args sample_options [1]%nat).
Proof.
  intros Heq.
  assert (Hlookup : ∀ r r' : Result LabeledData, r = r' →
            match r, r' with
            | Ok d, Ok d' => d !! "twin" = d' !! "twin"
            | _, _ => True
            end).
  { intros r r' ->. by destruct r'. }
  apply Hlookup in Heq. vm_compute in Heq. discriminate Heq.
Qed.

(** ** How a run fails *)

(** X11. The first fetch to fail in the order of completion decides how the
    run ends: the exit has its cause (the failed command for a non-zero exit
    code, the caught SyntaxError for an output that is not JSON, the caught
    TypeError for an answer without [timeseries]), and the progress lines
    written are (0, N) and one line for each completion before it; every run
    that does not return ends in this way. *)
Theorem first_failure_ends_run (env : Env) (args : ITSAPluginArgs) (options : IAZPluginOptions)
    (sched : list nat) (intervalValue metricName : string) (vmIds : list IAZResource) :
  getValidInterval (step args) = Some intervalValue →
  mapMetricName options (default cpu (metric options)) = Ok metricName →
  getVMIds env options = Ok vmIds →
  let flags := timeSeriesFlags_of args metricName intervalValue in
  let run := execute env args options sched in
  (∀ before vm after c,
     completion_order sched vmIds = before ++ vm :: after →
     Forall (fetched env flags) before →
     failure_cause env flags vm = Some c →
     outcome run = Exit c ∧
     progress run = progress_upto (length vmIds) (length before)) ∧
  ((∀ d, outcome run ≠ Ok d) →
   ∃ before vm after c,
     completion_order sched vmIds = before ++ vm :: after ∧
     Forall (fetched env flags) before ∧
     failure_cause env flags vm = Some c) ∧
  (∀ vm,
     failure_cause env flags vm =
       match az_monitor_metrics_list env (monitor_metrics_command (id vm) flags) with
       | {| code := c; stdout := out |} =>
           if c =? 0 then
             match out with
             | None => Some (Caught SyntaxError)
             | Some payload =>
                 match firstTimeSeries payload with
                 | Ok _ => None
                 | _ => Some (Caught TypeError)
                 end
             end
           else Some (CommandFailed (monitor_metrics_command (id vm) flags))
       end).
Proof.
  intros Hint Hmap Hlist flags run. subst run.
  rewrite (execute_fan_out _ _ _ _ _ _ _ Hint Hmap Hlist). cbv zeta.
  cbn [outcome progress]. fold flags.
  split; [| split].
  - intros before vm after c Horder Hall Hcause. rewrite Horder.
    destruct (settle_first_failure env (default cpu (metric options)) flags (length vmIds)
                before (logProgress (length vmIds) initialState) vm after c Hall Hcause)
      as [Hexit Hwritten].
    split; [exact Hexit |]. rewrite Hwritten. reflexivity.
  - intros Hnot.
    destruct (first_failure_split env flags (completion_order sched vmIds))
      as [Hall | Hsplit]; [| exact Hsplit].
    exfalso.
    apply (settle_returns_iff env (default cpu (metric options)) flags (length vmIds) _
             (logProgress (length vmIds) initialState)) in Hall as [d Hd].
    by apply (Hnot d).
  - intros vm. unfold failure_cause, getTimeSeries, az, execOrFail.
    destruct (az_monitor_metrics_list env (monitor_metrics_command (id vm) flags))
      as [c [payload |]]; cbn [code stdout]; destruct (c =? 0); try done.
    cbn. unfold firstTimeSeries.
    destruct (value payload) as [| v rest]; [done |].
    destruct (timeseries v) as [[| ts0 more] |]; done.
Qed.

Lemma first_failure_ends_run_witness :
  outcome (execute garbled_env sample_args sample_options [2]%nat)
    = Exit (Caught SyntaxError) ∧
  progress (execute garbled_env sample_args sample_options [2]%nat) = progress_upto 3 2.
Proof.
  destruct (first_failure_ends_run garbled_env sample_args sample_options [2]%nat
              "5m" "Percentage CPU" sample_vmIds eq_refl eq_refl eq_refl) as [Hfirst _].
  apply (Hfirst
           [ {| id := "/vm/db-1"; name := "db-1" |}; {| id := "/vm/web-1"; name := "web-1" |} ]
           {| id := "/vm/web-2"; name := "web-2" |} []).
  - reflexivity.
  - repeat constructor; eexists; vm_compute; reflexivity.
  - reflexivity.
Defined.

(** ** The two variants *)

Lemma average_decides_cons point rest m :
  average_decides point = true →
  mapSeries (point :: rest) (metric_of_legacy m)
    = (Some <$> Legacy.mapSeries [point] m) ++ mapSeries rest (metric_of_legacy m).
Proof.
  intros Hdec. rewrite mapSeries_cons. f_equal.
  destruct point as [avg mx mn ts].
  unfold average_decides in Hdec. unfold all_missing, reduced, Legacy.mapSeries.
  cbn [List.filter]. unfold Legacy.average_not_null. cbn in *.
  destruct avg as [| | a]; [done | |].
  - apply andb_true_iff in Hdec as [Hmin Hmax]. cbn. by rewrite Hmin, Hmax.
  - cbn. by destruct m.
Qed.

(** X12. The two variants normalize alike wherever the average alone decides:
    on a series each of whose points has a numeric average, or a [null]
    average and neither a usable minimum nor a usable maximum, the current
    variant gives the points of the legacy variant; and for the cpu metric
    they differ on any single point of another kind (an absent average, or a
    [null] average beside a usable minimum or maximum). *)
Theorem variants_agree_on_average (m : Legacy.MetricType) :
  (∀ rawSeries,
     Forall (fun point => average_decides point = true) rawSeries →
     mapSeries rawSeries (metric_of_legacy m) = Some <$> Legacy.mapSeries rawSeries m) ∧
  (∀ point,
     average_decides point = false →
     mapSeries [point] cpu ≠ Some <$> Legacy.mapSeries [point] Legacy.cpu).
Proof.
  split.
  - intros rawSeries Hall. induction Hall as [| point rest Hdec _ IH]; [done |].
    rewrite (average_decides_cons _ _ _ Hdec), IH.
    rewrite <- fmap_app. f_equal.
    rewrite (Legacy_mapSeries_cons point rest), (Legacy_mapSeries_cons point []).
    by rewrite app_nil_r.
  - intros [avg mx mn ts] Hdec. unfold average_decides in Hdec.
    unfold mapSeries, Legacy.mapSeries, mapTimeSeriesDataPoint, Legacy.average_not_null.
    cbn in *.
    destruct avg as [| | a]; [| | done].
    + destruct mn, mx; cbn; discriminate.
    + destruct mn, mx; cbn in *; discriminate.
Qed.

Example variants_differ_on_fallback :
  mapSeries [ {| average := null; minimum := num 1; maximum := num 9; timeStamp := "t" |} ] ram
    = [ Some (NewDate "t", num (1 / 1000000000)%float) ] ∧
  Legacy.mapSeries
    [ {| average := null; minimum := num 1; maximum := num 9; timeStamp := "t" |} ] Legacy.ram
    = [].
Proof. split; reflexivity. Qed.
